(** * Inter-annotator agreement metrics (agreement.py)

    A shallow embedding of the metric layer of [agreement.py]: the Pk and
    WindowDiff sliding-window scores, the pairwise aggregator
    [pairwise_evaluation] and its three instances.  The script is Python 2
    ([xrange], [print] statements), so [round] rounds halves away from zero
    and [/] on two integers is integer division.

    Python lists of numbers are [list Z]; the rows of the numpy array hold
    only [0.0] and [1.0], which Python compares equal to [0] and [1], and are
    [list Z] as well.  A floating-point score is an exact rational kept in
    lowest terms ([Qred]) so that equal scores are equal terms; [NonFinite]
    stands for numpy's [nan] and [inf].  A raised exception is [Raise]. *)

From Stdlib Require Import String.
From Stdlib Require Import ZArith QArith Qround List Bool Lia Lqa.
From Stdlib Require Import Permutation.
Import ListNotations.

Open Scope Z_scope.

(** ** Exceptions and results *)

Inductive exn : Type :=
| ValueError (msg : string)
| ZeroDivisionError
| IndexError.

Inductive result (A : Type) : Type :=
| Ok (a : A)
| Raise (e : exn).

Arguments Ok {A} a.
Arguments Raise {A} e.

Definition bind {A B : Type} (c : result A) (f : A -> result B) : result B :=
  match c with
  | Ok a => f a
  | Raise e => Raise e
  end.

Notation "x <- c ;; k" := (bind c (fun x => k))
  (at level 61, c at next level, right associativity).

Fixpoint mapM {A B : Type} (f : A -> result B) (l : list A) : result (list B) :=
  match l with
  | [] => Ok []
  | x :: xs => y <- f x ;; ys <- mapM f xs ;; Ok (y :: ys)
  end.

(** ** Scores *)

Inductive score : Type :=
| Fin (q : Q)
| NonFinite.

Definition score_add (a b : score) : score :=
  match a, b with
  | Fin x, Fin y => Fin (Qred (x + y))
  | _, _ => NonFinite
  end.

(** numpy division of two floats: a zero divisor gives [nan] or [inf]. *)
Definition np_div (a b : score) : score :=
  match a, b with
  | Fin x, Fin y => if Qeq_bool y 0 then NonFinite else Fin (Qred (x / y))
  | _, _ => NonFinite
  end.

(** Python division [a / b] of an integer by a float holding an integer. *)
Definition float_div (a b : Z) : result score :=
  if b =? 0 then Raise ZeroDivisionError
  else Ok (Fin (Qred (inject_Z a / inject_Z b))).

(** Python 2 [round]: to the nearest integer, halves away from zero. *)
Definition py_round (q : Q) : Z :=
  if Qle_bool 0 q then Qfloor (q + (1 # 2)) else - Qfloor (- q + (1 # 2)).

(** ** Python sequences *)

Definition len {A : Type} (l : list A) : Z := Z.of_nat (length l).

(** [range(n)] and [xrange(n)]: empty when [n <= 0]. *)
Definition range (n : Z) : list Z := map Z.of_nat (seq 0 (Z.to_nat n)).

(** A slice bound: negative bounds count from the end, and all are clamped. *)
Definition slice_index (n i : Z) : Z :=
  if i <? 0 then Z.max 0 (i + n) else Z.min i n.

(** [l[lo:hi]] *)
Definition slice {A : Type} (l : list A) (lo hi : Z) : list A :=
  let a := slice_index (len l) lo in
  let b := slice_index (len l) hi in
  firstn (Z.to_nat (b - a)) (skipn (Z.to_nat a) l).

(** [l.count(x)] *)
Definition count (x : Z) (l : list Z) : Z := Z.of_nat (count_occ Z.eq_dec l x).

(** [max(iterable)] *)
Definition py_max (l : list Z) : result Z :=
  match l with
  | [] => Raise (ValueError "max() arg is an empty sequence")
  | x :: xs => Ok (fold_left Z.max xs x)
  end.

(** [sum(scores)]: a left fold from the integer [0]. *)
Definition py_sum (l : list score) : score := fold_left score_add l (Fin 0).

(** [itertools.combinations(l, 2)] *)
Fixpoint combinations2 {A : Type} (l : list A) : list (A * A) :=
  match l with
  | [] => []
  | x :: xs => map (pair x) xs ++ combinations2 xs
  end.

(** ** Pk *)

(** [k = int(round(len(ref) / (ref.count(boundary) * 2.)))] *)
Definition default_k (ref : list Z) (boundary : Z) : result Z :=
  let d := count boundary ref * 2 in
  if d =? 0 then Raise ZeroDivisionError
  else Ok (py_round (inject_Z (len ref) / inject_Z d)).

(** One iteration of the loop of [pk]. *)
Definition pk_step (ref hyp : list Z) (k boundary : Z) (err i : Z) : Z :=
  let r := 0 <? count boundary (slice ref i (i + k)) in
  let h := 0 <? count boundary (slice hyp i (i + k)) in
  if negb (eqb r h) then err + 1 else err.

Definition pk (ref hyp : list Z) (k : option Z) (boundary : Z) : result score :=
  k <- match k with
       | Some k => Ok k
       | None => default_k ref boundary
       end ;;
  let err := fold_left (pk_step ref hyp k boundary) (range (len ref - k + 1)) 0 in
  float_div err (len ref - k + 1).

(** ** WindowDiff *)

(** One iteration of the loop of [windowdiff]. *)
Definition windowdiff_step (seg1 seg2 : list Z) (k boundary : Z)
    (weighted : bool) (wd i : Z) : Z :=
  let ndiff :=
    Z.abs (count boundary (slice seg1 i (i + k))
           - count boundary (slice seg2 i (i + k))) in
  if weighted then wd + ndiff else wd + Z.min 1 ndiff.

Definition windowdiff (seg1 seg2 : list Z) (k boundary : Z) (weighted : bool)
    : result score :=
  if negb (len seg1 =? len seg2) then
    Raise (ValueError "Segmentations have unequal length")
  else if len seg1 <? k then
    Raise (ValueError
      "Window width k should be smaller or equal than segmentation lengths")
  else
    let wd := fold_left (windowdiff_step seg1 seg2 k boundary weighted)
                        (range (len seg1 - k + 1)) 0 in
    float_div wd (len seg1 - k + 1).

(** ** Pairwise aggregator *)

(** [np.zeros((rows, cols))] *)
Definition np_zeros (rows cols : Z) : result (list (list Z)) :=
  if (rows <? 0) || (cols <? 0) then
    Raise (ValueError "negative dimensions are not allowed")
  else Ok (repeat (repeat 0 (Z.to_nat cols)) (Z.to_nat rows)).

(** An integer index into an axis of size [n]: negative indices wrap once. *)
Definition np_index (n v : Z) : result nat :=
  if (v <? - n) || (n <=? v) then Raise IndexError
  else Ok (Z.to_nat (if v <? 0 then v + n else v)).

Fixpoint set_nth {A : Type} (l : list A) (n : nat) (x : A) : list A :=
  match l, n with
  | [], _ => []
  | _ :: t, O => x :: t
  | h :: t, S m => h :: set_nth t m x
  end.

(** [row[annotation] = 1.0] for a list of integer indices. *)
Definition assign_ones (row annotation : list Z) : result (list Z) :=
  js <- mapM (np_index (len row)) annotation ;;
  Ok (fold_left (fun r j => set_nth r j 1) js row).

(** [bin_annotations[i, annotation] = 1.0] *)
Definition assign_row (bin : list (list Z)) (i : nat) (annotation : list Z)
    : result (list (list Z)) :=
  match nth_error bin i with
  | None => Raise IndexError
  | Some row => row' <- assign_ones row annotation ;; Ok (set_nth bin i row')
  end.

Definition enumerate {A : Type} (l : list A) : list (nat * A) :=
  combine (seq 0 (length l)) l.

(** The loop [for i, annotation in enumerate(annotations)]. *)
Fixpoint encode_rows (bin : list (list Z)) (rows : list (nat * list Z))
    : result (list (list Z)) :=
  match rows with
  | [] => Ok bin
  | (i, annotation) :: rest =>
      bin' <- assign_row bin i annotation ;; encode_rows bin' rest
  end.

(** [sum(scores) / len(scores)]; the sum of no scores is the integer [0]. *)
Definition py_mean (scores : list score) : result score :=
  if len scores =? 0 then Raise ZeroDivisionError
  else Ok (match py_sum scores with
           | Fin q => Fin (Qred (q / inject_Z (len scores)))
           | NonFinite => NonFinite
           end).

(** Lines 92-96: the shared length and the rows of [bin_annotations]. *)
Definition bin_annotations (annotations : list (list Z))
    : result (list (list Z)) :=
  max_val <- py_max (concat annotations) ;;
  bin <- np_zeros (len annotations) (max_val + 1) ;;
  encode_rows bin (enumerate annotations).

Definition pairwise_evaluation (fn : list Z -> list Z -> result score)
    (annotations : list (list Z)) : result score :=
  bin <- bin_annotations annotations ;;
  scores <- mapM (fun ab => fn (fst ab) (snd ab)) (combinations2 bin) ;;
  py_mean scores.

Definition pairwise_pk (annotations : list (list Z)) : result score :=
  pairwise_evaluation (fun a b => pk a b None 1) annotations.

(** [k] is 3 when the caller leaves it out. *)
Definition pairwise_windowdiff (annotations : list (list Z)) (k : Z)
    : result score :=
  pairwise_evaluation (fun a b => windowdiff a b k 1 false) annotations.

(** ** Cohen's kappa *)

Definition sumZ (l : list Z) : Z := fold_right Z.add 0 l.

Fixpoint insert_label (x : Z) (l : list Z) : list Z :=
  match l with
  | [] => [x]
  | y :: ys =>
      if x <? y then x :: l
      else if x =? y then l
      else y :: insert_label x ys
  end.

(** The sorted distinct values of a list. *)
Definition unique_labels (l : list Z) : list Z := fold_right insert_label [] l.

Definition count_pairs (i j : Z) (ps : list (Z * Z)) : Z :=
  len (filter (fun p => (fst p =? i) && (snd p =? j)) ps).

(** Modelled from the spec: [confusion_matrix] is sklearn's, absent from the
    source.  It is the cross-tabulation of two label vectors: entry [(i, j)]
    counts the positions that hold the [i]-th label in the first vector and
    the [j]-th in the second, the labels being the sorted distinct values of
    both. *)
Definition confusion_matrix (y_true y_pred : list Z) : result (list (list Z)) :=
  if negb (len y_true =? len y_pred) then
    Raise (ValueError
      "Found input variables with inconsistent numbers of samples")
  else
    let labels := unique_labels (y_true ++ y_pred) in
    let ps := combine y_true y_pred in
    Ok (map (fun i => map (fun j => count_pairs i j ps) labels) labels).

Definition entry (table : list (list Z)) (i j : nat) : Z :=
  nth j (nth i table []) 0.

(** Modelled from the spec: [cohens_kappa] is statsmodels', absent from the
    source.  It is Cohen's statistic of a square table: the observed
    agreement [po] (the diagonal's share) corrected for the agreement [pe]
    expected by chance under the two marginal distributions,
    [(po - pe) / (1 - pe)], in numpy arithmetic (not finite when a division
    by zero occurs). *)
Definition cohens_kappa (table : list (list Z)) : score :=
  let idx := seq 0 (length table) in
  let nobs := sumZ (map sumZ table) in
  if nobs =? 0 then NonFinite
  else
    let n := inject_Z nobs in
    let po := (inject_Z (sumZ (map (fun i => entry table i i) idx)) / n)%Q in
    let row i := (inject_Z (sumZ (map (fun j => entry table i j) idx)) / n)%Q in
    let col i := (inject_Z (sumZ (map (fun j => entry table j i) idx)) / n)%Q in
    let pe := fold_right Qplus 0%Q (map (fun i => (row i * col i)%Q) idx) in
    np_div (Fin (po - pe)%Q) (Fin (1 - pe)%Q).

(** [lambda a, b: cohens_kappa(confusion_matrix(a, b)).kappa] *)
Definition kappa (a b : list Z) : result score :=
  table <- confusion_matrix a b ;; Ok (cohens_kappa table).

Definition pairwise_kappa (annotations : list (list Z)) : result score :=
  pairwise_evaluation kappa annotations.

(** ** Specification-level notions *)

(** The window of width [k] that starts at position [i]. *)
Definition window {A : Type} (l : list A) (i k : Z) : list A :=
  firstn (Z.to_nat k) (skipn (Z.to_nat i) l).

(** A window contains at least one boundary symbol. *)
Definition has_boundary (boundary : Z) (w : list Z) : bool :=
  existsb (Z.eqb boundary) w.

(** [f 0 + f 1 + ... + f (n - 1)] *)
Fixpoint sum_upto (f : Z -> Z) (n : nat) : Z :=
  match n with
  | O => 0
  | S m => sum_upto f m + f (Z.of_nat m)
  end.

(** The difference of the boundary counts of the two windows at [i]. *)
Definition count_diff (seg1 seg2 : list Z) (k boundary i : Z) : Z :=
  Z.abs (count boundary (window seg1 i k) - count boundary (window seg2 i k)).

(** The two windows at [i] disagree on the presence of a boundary. *)
Definition disagree (ref hyp : list Z) (k boundary i : Z) : bool :=
  xorb (has_boundary boundary (window ref i k))
       (has_boundary boundary (window hyp i k)).

(** The binary indicator vector of length [n] of a sequence of positions:
    index [i] holds 1 iff [i] appears in the sequence. *)
Definition indicator (n : Z) (a : list Z) : list Z :=
  map (fun i => if existsb (Z.eqb i) a then 1 else 0) (range n).

(** The index pairs [(i, j)] with [i < j < n], in lexicographic order. *)
Fixpoint index_pairs (n : nat) : list (nat * nat) :=
  match n with
  | O => []
  | S m => map (pair O) (seq 1 m)
           ++ map (fun ij => (S (fst ij), S (snd ij))) (index_pairs m)
  end.

Definition Qsum (l : list Q) : Q := fold_right Qplus 0%Q l.

(** The values of a list of scores when all of them are finite. *)
Fixpoint finite_scores (l : list score) : option (list Q) :=
  match l with
  | [] => Some []
  | Fin q :: t => option_map (cons q) (finite_scores t)
  | NonFinite :: _ => None
  end.

(** The arithmetic mean of a list of scores: the sum of the scores divided
    by their number, not finite as soon as one score is not. *)
Definition arithmetic_mean (l : list score) : score :=
  match finite_scores l with
  | Some qs => Fin (Qred (Qsum qs / inject_Z (len qs)))
  | None => NonFinite
  end.

(** Two sequences hold the same values. *)
Definition same_values (a a' : list Z) : Prop := forall v, In v a <-> In v a'.

(** [a'] is obtained from [a] by permuting its values and by repeating
    values it already holds. *)
Inductive same_content : list Z -> list Z -> Prop :=
| same_content_perm a a' : Permutation a a' -> same_content a a'
| same_content_dup a v : In v a -> same_content a (v :: a)
| same_content_trans a a' a'' :
    same_content a a' -> same_content a' a'' -> same_content a a''.

(** The position an index [v] designates on an axis of size [n], and
    whether it designates one. *)
Definition wrap (n v : Z) : Z := if v <? 0 then v + n else v.

Definition in_axis (n v : Z) : bool := negb ((v <? - n) || (n <=? v)).

(** The row of length [n] that holds 1 at the positions designated by [a]. *)
Definition marked (n : Z) (a : list Z) : list Z :=
  map (fun i => if existsb (fun v => wrap n v =? i) a then 1 else 0) (range n).

(** ** Sequences: basic facts *)

Lemma len_nonneg {A : Type} (l : list A) : 0 <= len l.
Proof. unfold len; lia. Qed.

Lemma range_In (n i : Z) : In i (range n) <-> 0 <= i < n.
Proof.
  unfold range; rewrite in_map_iff; split.
  - intros (m & <- & Hm). apply in_seq in Hm. lia.
  - intros Hi. exists (Z.to_nat i). split; [lia|]. apply in_seq. lia.
Qed.

Lemma range_length (n : Z) : length (range n) = Z.to_nat n.
Proof. unfold range. now rewrite length_map, length_seq. Qed.

Lemma sumZ_app (l1 l2 : list Z) : sumZ (l1 ++ l2) = sumZ l1 + sumZ l2.
Proof. induction l1 as [|x l1 IH]; simpl; [reflexivity | rewrite IH; lia]. Qed.

Lemma sumZ_range (f : Z -> Z) (n : Z) :
  sumZ (map f (range n)) = sum_upto f (Z.to_nat n).
Proof.
  unfold range. induction (Z.to_nat n) as [|m IH]; [reflexivity|].
  rewrite seq_S, !map_app, sumZ_app, IH. simpl. lia.
Qed.

(** A loop that adds [f i] to its accumulator computes a sum. *)
Lemma fold_left_sum (step : Z -> Z -> Z) (f : Z -> Z) (l : list Z) :
  (forall acc i, In i l -> step acc i = acc + f i) ->
  forall a, fold_left step l a = a + sumZ (map f l).
Proof.
  induction l as [|x l IH]; intros Hstep a; simpl; [lia|].
  rewrite Hstep by (now left). rewrite IH; [lia|].
  intros acc i Hi. apply Hstep. now right.
Qed.

Lemma sum_upto_bounds (f : Z -> Z) (lo hi : Z) (n : nat) :
  (forall i, 0 <= i < Z.of_nat n -> lo <= f i <= hi) ->
  lo * Z.of_nat n <= sum_upto f n <= hi * Z.of_nat n.
Proof.
  induction n as [|m IH]; intros Hf; [simpl; lia|].
  cbn [sum_upto]. specialize (Hf (Z.of_nat m) ltac:(lia)) as Hm.
  assert (lo * Z.of_nat m <= sum_upto f m <= hi * Z.of_nat m) by (apply IH; intros; apply Hf; lia).
  lia.
Qed.

Lemma slice_window {A : Type} (l : list A) (i k : Z) :
  0 <= i -> 0 <= k -> slice l i (i + k) = window l i k.
Proof.
  intros Hi Hk. unfold slice, window, slice_index.
  destruct (Z.ltb_spec i 0); [lia|]. destruct (Z.ltb_spec (i + k) 0); [lia|].
  pose proof (len_nonneg l) as Hl. unfold len in *.
  destruct (Z.le_gt_cases i (Z.of_nat (length l))) as [Hle|Hgt].
  - rewrite (Z.min_l i) by lia.
    destruct (Z.le_gt_cases (i + k) (Z.of_nat (length l))).
    + rewrite Z.min_l by lia. f_equal. lia.
    + rewrite Z.min_r by lia.
      rewrite (firstn_all2 (n := Z.to_nat k)) by (rewrite length_skipn; lia).
      apply firstn_all2. rewrite length_skipn. lia.
  - rewrite !skipn_all2 by lia. now rewrite !firstn_nil.
Qed.

Lemma has_boundary_count (boundary : Z) (w : list Z) :
  (0 <? count boundary w) = has_boundary boundary w.
Proof.
  unfold count, has_boundary. induction w as [|x w IH]; [reflexivity|].
  simpl. destruct (Z.eq_dec x boundary) as [->|Hne].
  - rewrite Z.eqb_refl. simpl. apply Z.ltb_lt. lia.
  - destruct (Z.eqb_spec boundary x); [congruence|]. simpl. exact IH.
Qed.

(** ** Rationals: ratios of integers *)

Lemma ratio_bounds (a n : Z) :
  0 <= a <= n -> 0 < n -> (0 <= inject_Z a / inject_Z n <= 1)%Q.
Proof.
  intros Ha Hn.
  assert (Hq : (0 < inject_Z n)%Q) by (rewrite (Zlt_Qlt 0 n) in Hn; exact Hn).
  split.
  - apply Qle_shift_div_l; [exact Hq|]. rewrite Qmult_0_l.
    change (inject_Z 0 <= inject_Z a)%Q. rewrite <- Zle_Qle. lia.
  - apply Qle_shift_div_r; [exact Hq|]. rewrite Qmult_1_l.
    rewrite <- Zle_Qle. lia.
Qed.

Lemma ratio_zero (a n : Z) :
  n <> 0 -> (Qred (inject_Z a / inject_Z n) = 0%Q <-> a = 0).
Proof.
  intros Hn. split.
  - intros H.
    assert (Hq : (inject_Z a / inject_Z n == 0)%Q)
      by (rewrite <- (Qred_correct (inject_Z a / inject_Z n)), H; reflexivity).
    unfold Qdiv in Hq. apply Qmult_integral in Hq. destruct Hq as [Hq|Hq].
    + unfold Qeq in Hq. simpl in Hq. lia.
    + exfalso. revert Hq. unfold Qeq, Qinv, inject_Z. simpl.
      destruct n; simpl; lia.
  - intros ->. apply (Qred_complete (inject_Z 0 / inject_Z n) 0).
    unfold Qdiv. apply Qmult_0_l.
Qed.

(** ** The two sliding-window loops *)

Lemma windowdiff_loop (seg1 seg2 : list Z) (k boundary : Z) (weighted : bool) (n : Z) :
  0 <= k ->
  fold_left (windowdiff_step seg1 seg2 k boundary weighted) (range n) 0
  = sum_upto (fun i => if weighted then count_diff seg1 seg2 k boundary i
                       else Z.min 1 (count_diff seg1 seg2 k boundary i))
             (Z.to_nat n).
Proof.
  intros Hk. rewrite <- sumZ_range.
  rewrite (fold_left_sum _ (fun i => if weighted then count_diff seg1 seg2 k boundary i
                       else Z.min 1 (count_diff seg1 seg2 k boundary i))); [lia|].
  intros acc i Hi. apply range_In in Hi.
  unfold windowdiff_step, count_diff. rewrite !slice_window by lia.
  now destruct weighted.
Qed.

Lemma pk_loop (ref hyp : list Z) (k boundary : Z) (n : Z) :
  0 <= k ->
  fold_left (pk_step ref hyp k boundary) (range n) 0
  = sum_upto (fun i => if disagree ref hyp k boundary i then 1 else 0)
             (Z.to_nat n).
Proof.
  intros Hk. rewrite <- sumZ_range.
  rewrite (fold_left_sum _ (fun i => if disagree ref hyp k boundary i then 1 else 0));
    [lia|].
  intros acc i Hi. apply range_In in Hi.
  unfold pk_step, disagree. rewrite !slice_window, !has_boundary_count by lia.
  destruct (has_boundary boundary (window ref i k)),
           (has_boundary boundary (window hyp i k)); simpl; lia.
Qed.

Lemma sum_upto_zero (f : Z -> Z) (n : nat) :
  (forall i, 0 <= i < Z.of_nat n -> 0 <= f i) ->
  (sum_upto f n = 0 <-> forall i, 0 <= i < Z.of_nat n -> f i = 0).
Proof.
  induction n as [|m IH]; intros Hf.
  - simpl. split; [intros _ i Hi; lia | reflexivity].
  - cbn [sum_upto].
    assert (Hm : forall i, 0 <= i < Z.of_nat m -> 0 <= f i) by (intros; apply Hf; lia).
    pose proof (sum_upto_bounds f 0 (Z.max 0 (sum_upto f m)) m) as Hb.
    assert (H0 : 0 <= sum_upto f m).
    { clear Hb IH. induction m as [|p IHp]; [simpl; lia|]. cbn [sum_upto].
      assert (0 <= sum_upto f p) by (apply IHp; intros; [apply Hf|apply Hm]; lia).
      specialize (Hm (Z.of_nat p) ltac:(lia)). lia. }
    specialize (Hf (Z.of_nat m) ltac:(lia)) as Hfm.
    specialize (IH Hm). split.
    + intros Hs i Hi. destruct (Z.eq_dec i (Z.of_nat m)) as [->|Hne]; [lia|].
      apply IH; lia.
    + intros Hall. rewrite (proj2 IH) by (intros; apply Hall; lia).
      rewrite Hall; lia.
Qed.

Lemma fold_left_congr {A B : Type} (f g : A -> B -> A) (l : list B) :
  (forall a x, f a x = g a x) -> forall a, fold_left f l a = fold_left g l a.
Proof.
  intros Hfg. induction l as [|x l IH]; intros a; simpl; [reflexivity|].
  now rewrite Hfg, IH.
Qed.

Lemma pk_explicit (ref hyp : list Z) (k boundary : Z) :
  0 <= k ->
  pk ref hyp (Some k) boundary
  = float_div (sum_upto (fun i => if disagree ref hyp k boundary i then 1 else 0)
                        (Z.to_nat (len ref - k + 1)))
              (len ref - k + 1).
Proof. intros Hk. unfold pk. simpl. now rewrite pk_loop. Qed.

Lemma disagree_count_bounds (ref hyp : list Z) (k boundary : Z) (n : nat) :
  0 <= sum_upto (fun i => if disagree ref hyp k boundary i then 1 else 0) n
    <= Z.of_nat n.
Proof.
  pose proof (sum_upto_bounds
    (fun i => if disagree ref hyp k boundary i then 1 else 0) 0 1 n) as H.
  rewrite Z.mul_0_l, Z.mul_1_l in H. apply H.
  intros i _. destruct (disagree ref hyp k boundary i); lia.
Qed.

(** ** Python 2 rounding of a non-negative ratio *)

Lemma py_round_ratio (n d : Z) :
  0 <= n -> 0 <= d ->
  py_round (inject_Z n / inject_Z d) = (2 * n + d) / (2 * d).
Proof.
  intros Hn Hd. destruct (Z.eq_dec d 0) as [->|Hd0].
  - replace (2 * 0) with 0 by lia. rewrite Z.div_0_r.
    assert (Hq : (inject_Z n / inject_Z 0 == 0)%Q)
      by (unfold Qdiv, Qinv; simpl; apply Qmult_0_r).
    unfold py_round.
    assert (Hb : Qle_bool 0 (inject_Z n / inject_Z 0) = true)
      by (apply Qle_bool_iff; rewrite Hq; apply Qle_refl).
    rewrite Hb, Hq. reflexivity.
  - unfold py_round.
    assert (Hpos : (0 <= inject_Z n / inject_Z d)%Q).
    { apply Qle_shift_div_l.
      - change (inject_Z 0 < inject_Z d)%Q. rewrite <- Zlt_Qlt. lia.
      - rewrite Qmult_0_l. change (inject_Z 0 <= inject_Z n)%Q.
        rewrite <- Zle_Qle. lia. }
    apply Qle_bool_iff in Hpos. rewrite Hpos.
    destruct d as [|p|p]; try lia.
    assert (Heq : (inject_Z n / inject_Z (Z.pos p) + (1 # 2)
                   == (2 * n + Z.pos p) # (2 * p))%Q).
    { unfold Qeq, Qdiv, Qinv, Qmult, Qplus, inject_Z. cbn [Qnum Qden].
      rewrite ?Pos2Z.inj_mul. lia. }
    rewrite Heq. unfold Qfloor. reflexivity.
Qed.

Lemma pk_default_unfold (ref hyp : list Z) (boundary : Z) :
  pk ref hyp None boundary
  = if count boundary ref =? 0 then Raise ZeroDivisionError
    else pk ref hyp
           (Some (py_round (inject_Z (len ref)
                            / inject_Z (2 * count boundary ref))))
           boundary.
Proof.
  unfold pk, default_k. rewrite (Z.mul_comm (count boundary ref) 2).
  destruct (Z.eqb_spec (count boundary ref) 0) as [->|Hc]; [reflexivity|].
  destruct (Z.eqb_spec (2 * count boundary ref) 0); [lia|]. reflexivity.
Qed.

(** ** WindowDiff *)

(** C2: for equal-length sequences and a width [0 < k <= length],
    [windowdiff] visits the [len(seg1) - k + 1] window positions, takes at
    each the absolute difference of the two boundary counts, adds it up raw
    when [weighted] and capped at 1 otherwise, and returns the total divided
    by the number of positions.  The unweighted score lies in [[0, 1]]; a
    weighted score can exceed 1. *)
Theorem windowdiff_sliding_window (seg1 seg2 : list Z) (k boundary : Z) :
  len seg1 = len seg2 -> 0 < k <= len seg1 ->
  let n := len seg1 - k + 1 in
  let d := count_diff seg1 seg2 k boundary in
  let weighted_score :=
    Qred (inject_Z (sum_upto d (Z.to_nat n)) / inject_Z n) in
  let unweighted_score :=
    Qred (inject_Z (sum_upto (fun i => Z.min 1 (d i)) (Z.to_nat n)) / inject_Z n) in
  windowdiff seg1 seg2 k boundary true = Ok (Fin weighted_score)
  /\ windowdiff seg1 seg2 k boundary false = Ok (Fin unweighted_score)
  /\ (0 <= unweighted_score <= 1)%Q
  /\ exists s1 s2 k' q,
       len s1 = len s2 /\ 0 < k' <= len s1
       /\ windowdiff s1 s2 k' boundary true = Ok (Fin q) /\ (1 < q)%Q.
Proof.
  intros Hlen Hk n d weighted_score unweighted_score.
  assert (Hn : 0 < n) by (unfold n; lia).
  assert (Hrun : forall w, windowdiff seg1 seg2 k boundary w
    = Ok (Fin (Qred (inject_Z (sum_upto (fun i => if w then d i else Z.min 1 (d i))
                                        (Z.to_nat n)) / inject_Z n)))).
  { intros w. unfold windowdiff. rewrite Hlen, Z.eqb_refl. simpl.
    destruct (Z.ltb_spec (len seg2) k); [lia|].
    rewrite <- Hlen, windowdiff_loop by lia. unfold float_div.
    fold n. destruct (Z.eqb_spec n 0); [lia|]. reflexivity. }
  split; [exact (Hrun true)|]. split; [exact (Hrun false)|]. split.
  - unfold unweighted_score. rewrite Qred_correct. apply ratio_bounds; [|exact Hn].
    pose proof (sum_upto_bounds (fun i => Z.min 1 (d i)) 0 1 (Z.to_nat n)) as Hb.
    rewrite Z.mul_0_l, Z.mul_1_l, Z2Nat.id in Hb by lia. apply Hb.
    intros i _. unfold d, count_diff. lia.
  - exists [boundary; boundary], [boundary + 1; boundary + 1], 2, 2%Q.
    split; [reflexivity|]. split; [unfold len; simpl; lia|]. split; [|reflexivity].
    unfold windowdiff, windowdiff_step, slice, count. simpl.
    destruct (Z.eq_dec boundary boundary) as [_|Hne]; [|congruence].
    destruct (Z.eq_dec (boundary + 1) boundary) as [Heq|_]; [lia|].
    reflexivity.
Qed.

Lemma windowdiff_sliding_window_witness :
  len [0; 0; 1; 0; 1; 0] = len [0; 1; 0; 0; 0; 0]
  /\ 0 < 3 <= len [0; 0; 1; 0; 1; 0]
  /\ windowdiff [0; 0; 1; 0; 1; 0] [0; 1; 0; 0; 0; 0] 3 1 true = Ok (Fin (3 # 4))
  /\ windowdiff [0; 0; 1; 0; 1; 0] [0; 1; 0; 0; 0; 0] 3 1 false = Ok (Fin (1 # 2)).
Proof.
  assert (Hlen : len [0; 0; 1; 0; 1; 0] = len [0; 1; 0; 0; 0; 0]) by reflexivity.
  assert (Hk : 0 < 3 <= len [0; 0; 1; 0; 1; 0]) by (unfold len; simpl; lia).
  pose proof (windowdiff_sliding_window _ _ 3 1 Hlen Hk) as H.
  split; [exact Hlen|]. split; [exact Hk|].
  split; [exact (proj1 H) | exact (proj1 (proj2 H))].
Defined.

(** C4: [windowdiff] raises the length-mismatch error whenever the two
    sequences have different lengths and the width error whenever they have
    the same length and [k] exceeds it; otherwise it returns a score. *)
Theorem windowdiff_preconditions (seg1 seg2 : list Z) (k boundary : Z)
    (weighted : bool) :
  (len seg1 <> len seg2 ->
   windowdiff seg1 seg2 k boundary weighted
   = Raise (ValueError "Segmentations have unequal length"))
  /\ (len seg1 = len seg2 -> len seg1 < k ->
      windowdiff seg1 seg2 k boundary weighted
      = Raise (ValueError
          "Window width k should be smaller or equal than segmentation lengths"))
  /\ (len seg1 = len seg2 -> k <= len seg1 ->
      exists q, windowdiff seg1 seg2 k boundary weighted = Ok (Fin q)).
Proof.
  unfold windowdiff. repeat split.
  - intros Hne. destruct (Z.eqb_spec (len seg1) (len seg2)); [contradiction|].
    reflexivity.
  - intros Heq Hk. rewrite Heq, Z.eqb_refl. simpl.
    destruct (Z.ltb_spec (len seg2) k); [reflexivity | lia].
  - intros Heq Hk. rewrite Heq, Z.eqb_refl. simpl.
    destruct (Z.ltb_spec (len seg2) k); [lia|].
    unfold float_div. destruct (Z.eqb_spec (len seg2 - k + 1) 0); [lia|].
    eexists. reflexivity.
Qed.

Lemma windowdiff_preconditions_witness :
  windowdiff [0; 1; 0] [0; 1] 2 1 false
    = Raise (ValueError "Segmentations have unequal length")
  /\ windowdiff [0; 1; 0] [1; 1; 0] 4 1 false
    = Raise (ValueError
        "Window width k should be smaller or equal than segmentation lengths")
  /\ exists q, windowdiff [0; 1; 0] [1; 1; 0] 3 1 false = Ok (Fin q).
Proof.
  split; [|split].
  - apply (proj1 (windowdiff_preconditions [0; 1; 0] [0; 1] 2 1 false)).
    unfold len; simpl; lia.
  - apply (proj1 (proj2 (windowdiff_preconditions [0; 1; 0] [1; 1; 0] 4 1 false)));
      unfold len; simpl; lia.
  - apply (proj2 (proj2 (windowdiff_preconditions [0; 1; 0] [1; 1; 0] 3 1 false)));
      unfold len; simpl; lia.
Defined.

(** ** Pk *)

(** C3: for an explicit window size [0 < k <= len(ref)] (in particular
    [0 < k < len(ref)]), [pk] counts the window positions, among the
    [len(ref) - k + 1], at which the windows of [ref] and [hyp] disagree on
    containing a boundary symbol, and returns that count divided by
    [len(ref) - k + 1]; the score lies in [[0, 1]] and is 0 exactly when the
    two windows agree at every position. *)
Theorem pk_sliding_window (ref hyp : list Z) (k boundary : Z) :
  0 < k <= len ref ->
  let n := len ref - k + 1 in
  let err :=
    sum_upto (fun i => if disagree ref hyp k boundary i then 1 else 0)
             (Z.to_nat n) in
  let r := Qred (inject_Z err / inject_Z n) in
  pk ref hyp (Some k) boundary = Ok (Fin r)
  /\ (0 <= r <= 1)%Q
  /\ (r = 0%Q <->
      forall i, 0 <= i < n ->
        has_boundary boundary (window ref i k)
        = has_boundary boundary (window hyp i k)).
Proof.
  intros Hk n err r.
  assert (Hn : 0 < n) by (unfold n; lia).
  pose proof (disagree_count_bounds ref hyp k boundary (Z.to_nat n)) as Herr.
  fold err in Herr. rewrite Z2Nat.id in Herr by lia.
  split; [|split].
  - rewrite pk_explicit by lia. fold n. fold err. unfold float_div.
    destruct (Z.eqb_spec n 0); [lia|]. reflexivity.
  - unfold r. rewrite Qred_correct. now apply ratio_bounds.
  - unfold r. rewrite ratio_zero by lia. unfold err.
    rewrite sum_upto_zero
      by (intros i _; destruct (disagree ref hyp k boundary i); lia).
    rewrite Z2Nat.id by lia.
    split; intros H i Hi; specialize (H i Hi); unfold disagree in *;
      destruct (has_boundary boundary (window ref i k)),
               (has_boundary boundary (window hyp i k));
      simpl in *; congruence.
Qed.

Lemma pk_sliding_window_witness :
  0 < 2 <= len [0; 1; 0; 0; 0; 1; 0; 0]
  /\ pk [0; 1; 0; 0; 0; 1; 0; 0] [1; 1; 1; 1; 1; 1; 1; 1] (Some 2) 1
     = Ok (Fin (3 # 7)).
Proof.
  assert (Hk : 0 < 2 <= len [0; 1; 0; 0; 0; 1; 0; 0]) by (unfold len; simpl; lia).
  split; [exact Hk|].
  exact (proj1 (pk_sliding_window _ [1; 1; 1; 1; 1; 1; 1; 1] 2 1 Hk)).
Defined.

(** C6, as the code has it: with an explicit window size the division of
    [pk] is by zero exactly when [k = len(ref) + 1]; with [k = len(ref)]
    there is one window position and [pk] returns 0 or 1. *)
Theorem pk_division_by_zero (ref hyp : list Z) (k boundary : Z) :
  (pk ref hyp (Some k) boundary = Raise ZeroDivisionError <-> k = len ref + 1)
  /\ pk ref hyp (Some (len ref)) boundary
     = Ok (Fin (if disagree ref hyp (len ref) boundary 0 then 1 else 0)).
Proof.
  split.
  - unfold pk, float_div. simpl.
    destruct (Z.eqb_spec (len ref - k + 1) 0); split; intros H;
      try reflexivity; try lia; discriminate.
  - rewrite pk_explicit by apply len_nonneg.
    replace (len ref - len ref + 1) with 1 by lia. simpl.
    destruct (disagree ref hyp (len ref) boundary 0); reflexivity.
Qed.

Lemma pk_division_by_zero_witness :
  pk [1; 0] [0; 0] (Some 3) 1 = Raise ZeroDivisionError.
Proof.
  apply (proj1 (pk_division_by_zero [1; 0] [0; 0] 3 1)). reflexivity.
Defined.

(** C6 fails as stated: with [len(ref) == k] no division by zero occurs. *)
Lemma pk_full_width_counterexample :
  len [1; 0] = 2 /\ pk [1; 0] [0; 0] (Some 2) 1 = Ok (Fin 1).
Proof. split; reflexivity. Qed.

(** C7: without an explicit window size, [k] is
    [round(len(ref) / (2 * ref.count(boundary)))], which for these
    non-negative operands is [(len(ref) + c) / (2 * c)] rounded down with
    [c] the boundary count; a reference without boundary symbol makes that
    computation divide by zero, and nothing rejects it beforehand. *)
Theorem pk_default_window (ref hyp : list Z) (boundary : Z) :
  let c := count boundary ref in
  let k := py_round (inject_Z (len ref) / inject_Z (2 * c)) in
  pk ref hyp None boundary
  = (if c =? 0 then Raise ZeroDivisionError
     else pk ref hyp (Some k) boundary)
  /\ k = (len ref + c) / (2 * c).
Proof.
  intros c k. split; [apply pk_default_unfold|].
  - unfold k. rewrite py_round_ratio.
    + replace (2 * len ref + 2 * c) with ((len ref + c) * 2) by lia.
      replace (2 * (2 * c)) with (2 * c * 2) by lia.
      destruct (Z.eq_dec c 0) as [->|Hc].
      * simpl. now rewrite !Z.div_0_r.
      * apply Z.div_mul_cancel_r; lia.
    + apply len_nonneg.
    + unfold c, count. lia.
Qed.

(** ** Symmetry *)

Lemma windowdiff_sym (seg1 seg2 : list Z) (k boundary : Z) (weighted : bool) :
  windowdiff seg1 seg2 k boundary weighted
  = windowdiff seg2 seg1 k boundary weighted.
Proof.
  unfold windowdiff. rewrite (Z.eqb_sym (len seg2)).
  destruct (Z.eqb_spec (len seg1) (len seg2)) as [Heq|]; [|reflexivity].
  simpl. rewrite <- Heq. destruct (len seg1 <? k); [reflexivity|].
  f_equal. apply fold_left_congr. intros wd i. unfold windowdiff_step.
  set (x := count boundary (slice seg1 i (i + k))).
  set (y := count boundary (slice seg2 i (i + k))).
  replace (Z.abs (y - x)) with (Z.abs (x - y)) by lia. reflexivity.
Qed.

Lemma pk_sym_with (ref hyp : list Z) (k : Z) (boundary : Z) :
  len ref = len hyp ->
  pk ref hyp (Some k) boundary = pk hyp ref (Some k) boundary.
Proof.
  intros Hlen. unfold pk. simpl. rewrite <- Hlen. f_equal.
  apply fold_left_congr. intros err i. unfold pk_step.
  destruct (0 <? count boundary (slice ref i (i + k))),
           (0 <? count boundary (slice hyp i (i + k))); reflexivity.
Qed.

(** C8, as the code has it: WindowDiff is symmetric in its two sequences,
    and so is Pk with an explicit window size on sequences of equal length;
    with the defaulted window size Pk is symmetric when, moreover, both
    sequences hold the same number of boundary symbols (the default is
    computed from the first argument alone). *)
Theorem scores_symmetric (a b : list Z) (k boundary : Z) (weighted : bool) :
  windowdiff a b k boundary weighted = windowdiff b a k boundary weighted
  /\ (len a = len b ->
      pk a b (Some k) boundary = pk b a (Some k) boundary)
  /\ (len a = len b -> count boundary a = count boundary b ->
      pk a b None boundary = pk b a None boundary).
Proof.
  split; [apply windowdiff_sym|]. split; [apply pk_sym_with|].
  intros Hlen Hc.
  rewrite (pk_default_unfold a b), (pk_default_unfold b a), Hc, Hlen.
  destruct (count boundary b =? 0); [reflexivity|].
  apply pk_sym_with. exact Hlen.
Qed.

Lemma scores_symmetric_witness :
  pk [1; 1; 0; 0] [1; 0; 0; 0] (Some 2) 1 = pk [1; 0; 0; 0] [1; 1; 0; 0] (Some 2) 1
  /\ pk [1; 0; 1; 0] [0; 0; 1; 1] None 1 = pk [0; 0; 1; 1] [1; 0; 1; 0] None 1.
Proof.
  split.
  - apply (proj1 (proj2 (scores_symmetric [1; 1; 0; 0] [1; 0; 0; 0] 2 1 false))).
    reflexivity.
  - apply (proj2 (proj2 (scores_symmetric [1; 0; 1; 0] [0; 0; 1; 1] 2 1 false)));
      reflexivity.
Defined.

(** C8 fails as stated: with the window size left to its default, Pk of two
    valid sequences depends on which one comes first. *)
Lemma pk_default_not_symmetric_counterexample :
  pk [1; 1; 0; 0] [1; 0; 0; 0] None 1 = Ok (Fin (1 # 4))
  /\ pk [1; 0; 0; 0] [1; 1; 0; 0] None 1 = Ok (Fin (1 # 3))
  /\ pk [1; 1; 0; 0] [1; 0; 0; 0] None 1 <> pk [1; 0; 0; 0] [1; 1; 0; 0] None 1.
Proof. repeat split. discriminate. Qed.

(** ** The rows of the binary array *)

Lemma mapM_ok {A B : Type} (f : A -> result B) (g : A -> B) (l : list A) :
  (forall x, In x l -> f x = Ok (g x)) -> mapM f l = Ok (map g l).
Proof.
  induction l as [|x l IH]; intros H; [reflexivity|]. simpl.
  rewrite H by (now left). simpl. rewrite IH by (intros; apply H; now right).
  reflexivity.
Qed.

Lemma mapM_map {A B C : Type} (f : B -> result C) (h : A -> B) (l : list A) :
  mapM f (map h l) = mapM (fun x => f (h x)) l.
Proof.
  induction l as [|x l IH]; [reflexivity|]. simpl. now rewrite IH.
Qed.

Lemma existsb_same {A : Type} (p : A -> bool) (l l' : list A) :
  (forall x, In x l <-> In x l') -> existsb p l = existsb p l'.
Proof.
  intros H. apply eq_true_iff_eq. rewrite !existsb_exists.
  split; intros (x & Hx & Hp); exists x; split; try apply H; assumption.
Qed.

Lemma forallb_same {A : Type} (p : A -> bool) (l l' : list A) :
  (forall x, In x l <-> In x l') -> forallb p l = forallb p l'.
Proof.
  intros H. apply eq_true_iff_eq. rewrite !forallb_forall.
  split; intros Hp x Hx; apply Hp, H, Hx.
Qed.

Lemma mapM_np_index (n : Z) (a : list Z) :
  mapM (np_index n) a
  = if forallb (in_axis n) a
    then Ok (map (fun v => Z.to_nat (wrap n v)) a)
    else Raise IndexError.
Proof.
  induction a as [|v a IH]; [reflexivity|]. simpl. rewrite IH.
  unfold np_index, in_axis, wrap.
  destruct ((v <? - n) || (n <=? v)); simpl; [reflexivity|].
  destruct (forallb _ a); reflexivity.
Qed.

Lemma length_set_nth {A : Type} (l : list A) (n : nat) (x : A) :
  length (set_nth l n x) = length l.
Proof.
  revert n; induction l as [|h t IH]; intros [|n]; simpl; auto.
Qed.

Lemma nth_set_nth {A : Type} (l : list A) (n t : nat) (x d : A) :
  nth t (set_nth l n x) d
  = if ((t =? n) && (t <? length l))%nat then x else nth t l d.
Proof.
  revert n t; induction l as [|h l IH]; intros [|n] [|t]; simpl; try reflexivity.
  - now rewrite Bool.andb_false_r.
  - apply IH.
Qed.

Lemma set_nth_app {A : Type} (l1 l2 : list A) (y x : A) :
  set_nth (l1 ++ y :: l2) (length l1) x = l1 ++ x :: l2.
Proof. induction l1 as [|h l1 IH]; simpl; [reflexivity | now rewrite IH]. Qed.

Lemma fold_set_nth_length (js : list nat) (row : list Z) :
  length (fold_left (fun r j => set_nth r j 1) js row) = length row.
Proof.
  revert row; induction js as [|j js IH]; intros row; simpl; [reflexivity|].
  now rewrite IH, length_set_nth.
Qed.

Lemma fold_set_nth_nth (js : list nat) (row : list Z) (t : nat) :
  (t < length row)%nat ->
  nth t (fold_left (fun r j => set_nth r j 1) js row) 0
  = if existsb (Nat.eqb t) js then 1 else nth t row 0.
Proof.
  revert row; induction js as [|j js IH]; intros row Ht; simpl; [reflexivity|].
  rewrite IH by (now rewrite length_set_nth). rewrite nth_set_nth.
  destruct (Nat.ltb_spec t (length row)); [|lia].
  rewrite Bool.andb_true_r. destruct (t =? j)%nat; simpl; [|reflexivity].
  now destruct (existsb (Nat.eqb t) js).
Qed.

Lemma marked_length (n : Z) (a : list Z) : length (marked n a) = Z.to_nat n.
Proof. unfold marked. now rewrite length_map, range_length. Qed.

Lemma marked_nth (n : Z) (a : list Z) (t : nat) :
  (t < Z.to_nat n)%nat ->
  nth t (marked n a) 0
  = if existsb (fun v => wrap n v =? Z.of_nat t) a then 1 else 0.
Proof.
  intros Ht. unfold marked, range. rewrite map_map.
  rewrite (nth_indep _ 0
    ((fun x => if existsb (fun v => wrap n v =? Z.of_nat x) a then 1 else 0) O))
    by (now rewrite length_map, length_seq).
  rewrite (map_nth (fun x => if existsb (fun v => wrap n v =? Z.of_nat x) a
                             then 1 else 0)).
  now rewrite seq_nth.
Qed.

Lemma assign_ones_zeros (n : Z) (a : list Z) :
  0 <= n ->
  assign_ones (repeat 0 (Z.to_nat n)) a
  = if forallb (in_axis n) a then Ok (marked n a) else Raise IndexError.
Proof.
  intros Hn. unfold assign_ones, len. rewrite repeat_length, Z2Nat.id by lia.
  rewrite mapM_np_index. destruct (forallb (in_axis n) a) eqn:Hall; [|reflexivity].
  simpl. f_equal. rewrite forallb_forall in Hall.
  apply (nth_ext _ _ 0 0).
  - now rewrite fold_set_nth_length, repeat_length, marked_length.
  - intros t Ht. rewrite fold_set_nth_length, repeat_length in Ht.
    rewrite fold_set_nth_nth by (now rewrite repeat_length).
    rewrite marked_nth, nth_repeat by exact Ht.
    replace (existsb (Nat.eqb t) (map (fun v => Z.to_nat (wrap n v)) a))
      with (existsb (fun v => wrap n v =? Z.of_nat t) a); [reflexivity|].
    clear Ht. induction a as [|v a IH]; [reflexivity|]. simpl.
    rewrite IH by (intros x Hx; apply Hall; now right). f_equal.
    specialize (Hall v (or_introl eq_refl)). unfold in_axis, wrap in *.
    destruct (Z.ltb_spec v (- n)); [discriminate|].
    destruct (Z.leb_spec n v); [discriminate|].
    destruct (Z.ltb_spec v 0);
      destruct (Z.eqb_spec (v + n) (Z.of_nat t)), (Nat.eqb_spec t (Z.to_nat (v + n)));
      destruct (Z.eqb_spec v (Z.of_nat t)), (Nat.eqb_spec t (Z.to_nat v));
      try reflexivity; lia.
Qed.

Lemma encode_rows_zeros (n : Z) (rest : list (list Z)) :
  0 <= n ->
  forall done : list (list Z),
  encode_rows (done ++ repeat (repeat 0 (Z.to_nat n)) (length rest))
              (combine (seq (length done) (length rest)) rest)
  = if forallb (forallb (in_axis n)) rest
    then Ok (done ++ map (marked n) rest)
    else Raise IndexError.
Proof.
  intros Hn. induction rest as [|a rest IH]; intros done; simpl.
  - now rewrite !app_nil_r.
  - unfold assign_row. rewrite nth_error_app2, Nat.sub_diag by lia. simpl.
    rewrite assign_ones_zeros by exact Hn.
    destruct (forallb (in_axis n) a); simpl; [|reflexivity].
    rewrite set_nth_app.
    specialize (IH (done ++ [marked n a])).
    rewrite length_app, Nat.add_1_r, <- !app_assoc in IH. simpl in IH.
    exact IH.
Qed.

Lemma fold_max_spec (xs : list Z) (x : Z) :
  In (fold_left Z.max xs x) (x :: xs)
  /\ Forall (fun v => v <= fold_left Z.max xs x) (x :: xs).
Proof.
  revert x; induction xs as [|y xs IH]; intros x; simpl.
  - split; [now left | constructor; [lia | constructor]].
  - destruct (IH (Z.max x y)) as [Hin Hall]. simpl in Hin.
    apply Forall_cons_iff in Hall as [Hm Hall]. split.
    + destruct Hin as [Hin|Hin]; [|right; right; exact Hin].
      destruct (Z.max_spec x y) as [[_ Hxy]|[_ Hxy]].
      * right; left; congruence.
      * left; congruence.
    + repeat constructor; try lia. exact Hall.
Qed.

(** The largest value of a list is determined by the values it holds. *)
Lemma greatest_unique (l : list Z) (m m' : Z) :
  In m l -> Forall (fun v => v <= m) l ->
  In m' l -> Forall (fun v => v <= m') l -> m = m'.
Proof.
  rewrite !Forall_forall. intros Hin Hall Hin' Hall'.
  specialize (Hall _ Hin'). specialize (Hall' _ Hin). lia.
Qed.

Lemma py_max_greatest (l : list Z) (m : Z) :
  In m l -> Forall (fun v => v <= m) l -> py_max l = Ok m.
Proof.
  intros Hin Hall. destruct l as [|x xs]; [contradiction|]. simpl. f_equal.
  destruct (fold_max_spec xs x) as [Hin' Hall'].
  exact (greatest_unique _ _ _ Hin' Hall' Hin Hall).
Qed.

Lemma py_max_same (l l' : list Z) :
  (forall v, In v l <-> In v l') -> py_max l = py_max l'.
Proof.
  intros H. destruct l as [|x xs].
  - destruct l' as [|y ys]; [reflexivity|].
    exfalso. apply (proj2 (H y)). now left.
  - destruct (fold_max_spec xs x) as [Hin Hall].
    symmetry. rewrite (py_max_greatest l' (fold_left Z.max xs x)).
    + reflexivity.
    + now apply H.
    + rewrite Forall_forall in *. intros v Hv. apply Hall, H, Hv.
Qed.

Lemma enumerate_seq {A : Type} (l : list A) :
  enumerate l = combine (seq (length (@nil (list Z))) (length l)) l.
Proof. reflexivity. Qed.

(** The rows of the array in closed form, from the largest value [m]. *)
Lemma bin_annotations_closed (annotations : list (list Z)) (m : Z) :
  py_max (concat annotations) = Ok m ->
  bin_annotations annotations
  = if m + 1 <? 0 then Raise (ValueError "negative dimensions are not allowed")
    else if forallb (forallb (in_axis (m + 1))) annotations
         then Ok (map (marked (m + 1)) annotations)
         else Raise IndexError.
Proof.
  intros Hmax. unfold bin_annotations. rewrite Hmax. simpl.
  unfold np_zeros. destruct (Z.ltb_spec (len annotations) 0) as [Hneg|_].
  - pose proof (len_nonneg annotations). lia.
  - simpl. destruct (Z.ltb_spec (m + 1) 0); [reflexivity|]. simpl.
    unfold len. rewrite Nat2Z.id, enumerate_seq.
    apply (encode_rows_zeros (m + 1) annotations ltac:(lia) []).
Qed.

(** ** The encoding depends on the values only *)

Lemma same_content_values (a a' : list Z) :
  same_content a a' -> same_values a a'.
Proof.
  induction 1 as [a a' Hp | a v Hv | a a' a'' _ IH1 _ IH2]; intros x.
  - split; [apply Permutation_in, Hp | apply Permutation_in, Permutation_sym, Hp].
  - simpl. split; [now right | intros [<-|Hx]; assumption].
  - now rewrite (IH1 x).
Qed.

Lemma same_values_concat (l l' : list (list Z)) :
  Forall2 same_values l l' -> same_values (concat l) (concat l').
Proof.
  induction 1 as [|a a' l l' Ha _ IH]; intros x; [reflexivity|].
  simpl. rewrite !in_app_iff, (Ha x), (IH x). reflexivity.
Qed.

Lemma marked_same (n : Z) (a a' : list Z) :
  same_values a a' -> marked n a = marked n a'.
Proof.
  intros H. unfold marked. apply map_ext. intros i.
  now rewrite (existsb_same _ a a' H).
Qed.

Lemma bin_annotations_same (l l' : list (list Z)) :
  Forall2 same_values l l' -> bin_annotations l = bin_annotations l'.
Proof.
  intros H. pose proof (py_max_same _ _ (same_values_concat _ _ H)) as Hmax.
  destruct (py_max (concat l)) as [m|e] eqn:E.
  - rewrite (bin_annotations_closed l m E).
    rewrite (bin_annotations_closed l' m (eq_sym Hmax)).
    destruct (m + 1 <? 0); [reflexivity|].
    replace (forallb (forallb (in_axis (m + 1))) l')
      with (forallb (forallb (in_axis (m + 1))) l).
    + replace (map (marked (m + 1)) l') with (map (marked (m + 1)) l);
        [reflexivity|].
      clear -H. induction H as [|a a' l l' Ha _ IH]; [reflexivity|].
      simpl. now rewrite IH, (marked_same _ a a' Ha).
    + clear -H. induction H as [|a a' l l' Ha _ IH]; [reflexivity|].
      simpl. now rewrite IH, (forallb_same _ a a' Ha).
  - unfold bin_annotations. now rewrite <- Hmax, E.
Qed.

(** C10: permuting the values of an annotator's sequence, or repeating
    values it already holds, changes neither the binary encodings nor the
    score returned by the aggregator, whatever the scoring function. *)
Theorem pairwise_evaluation_values_only
    (fn : list Z -> list Z -> result score)
    (annotations annotations' : list (list Z)) :
  Forall2 same_content annotations annotations' ->
  bin_annotations annotations = bin_annotations annotations'
  /\ pairwise_evaluation fn annotations = pairwise_evaluation fn annotations'.
Proof.
  intros H.
  assert (Hbin : bin_annotations annotations = bin_annotations annotations').
  { apply bin_annotations_same.
    induction H as [|a a' l l' Ha _ IH]; constructor;
      [now apply same_content_values | exact IH]. }
  split; [exact Hbin|]. unfold pairwise_evaluation. now rewrite Hbin.
Qed.

Lemma pairwise_evaluation_values_only_witness :
  Forall2 same_content [[1; 3]; [0; 3]] [[3; 1; 3]; [3; 0]]
  /\ pairwise_kappa [[1; 3]; [0; 3]] = pairwise_kappa [[3; 1; 3]; [3; 0]].
Proof.
  assert (H : Forall2 same_content [[1; 3]; [0; 3]] [[3; 1; 3]; [3; 0]]).
  { constructor; [|constructor; [|constructor]].
    - apply same_content_dup. right; left; reflexivity.
    - apply same_content_perm. apply perm_swap. }
  split; [exact H|].
  exact (proj2 (pairwise_evaluation_values_only kappa _ _ H)).
Defined.

(** ** Pairs of rows *)

Lemma map_nth_seq {A : Type} (l : list A) (d : A) :
  map (fun j => nth j l d) (seq 0 (length l)) = l.
Proof.
  induction l as [|x l IH]; [reflexivity|]. simpl. f_equal.
  rewrite <- seq_shift, map_map. exact IH.
Qed.

Lemma combinations2_index {A : Type} (l : list A) (d : A) :
  combinations2 l
  = map (fun ij => (nth (fst ij) l d, nth (snd ij) l d))
        (index_pairs (length l)).
Proof.
  induction l as [|x l IH]; [reflexivity|]. simpl.
  rewrite map_app, !map_map. simpl. f_equal.
  - rewrite <- seq_shift, map_map.
    rewrite <- (map_nth_seq l d) at 1. now rewrite map_map.
  - exact IH.
Qed.

Lemma index_pairs_In (n i j : nat) :
  In (i, j) (index_pairs n) <-> (i < j < n)%nat.
Proof.
  revert i j; induction n as [|n IH]; intros i j; simpl; [lia|].
  rewrite in_app_iff, !in_map_iff. split.
  - intros [(x & Hx & Hin) | ([a b] & Hx & Hin)].
    + inversion Hx; subst. apply in_seq in Hin. lia.
    + inversion Hx; subst. apply IH in Hin. simpl. lia.
  - intros Hij. destruct i as [|i].
    + left. exists j. split; [reflexivity|]. apply in_seq. lia.
    + right. destruct j as [|j]; [lia|]. exists (i, j). split; [reflexivity|].
      apply IH. lia.
Qed.

Lemma index_pairs_NoDup (n : nat) : NoDup (index_pairs n).
Proof.
  induction n as [|n IH]; simpl; [constructor|].
  apply NoDup_app.
  - apply Finite.Injective_map_NoDup; [|apply seq_NoDup].
    intros x y Hxy. now inversion Hxy.
  - apply Finite.Injective_map_NoDup; [|exact IH].
    intros [a b] [a' b'] Hxy. simpl in Hxy. now inversion Hxy.
  - intros [a b] H1 H2. apply in_map_iff in H1 as (x & Hx & _).
    apply in_map_iff in H2 as ([a' b'] & Hy & _). simpl in Hy. congruence.
Qed.

Lemma index_pairs_length (n : nat) :
  Z.of_nat (length (index_pairs n)) = Z.of_nat n * (Z.of_nat n - 1) / 2.
Proof.
  induction n as [|n IH]; [reflexivity|].
  simpl index_pairs. rewrite length_app, !length_map, length_seq.
  rewrite Nat2Z.inj_add, IH.
  replace (Z.of_nat (S n) * (Z.of_nat (S n) - 1))
    with (Z.of_nat n * (Z.of_nat n - 1) + Z.of_nat n * 2) by lia.
  rewrite Z.div_add by lia. lia.
Qed.

(** ** The mean of the scores *)

Lemma fold_score_add_nonfinite (l : list score) :
  fold_left score_add l NonFinite = NonFinite.
Proof. induction l as [|x l IH]; [reflexivity | exact IH]. Qed.

Lemma fold_score_add (l : list score) :
  forall a : Q,
  match finite_scores l with
  | Some qs => exists q, fold_left score_add l (Fin a) = Fin q
                         /\ (q == a + Qsum qs)%Q
  | None => fold_left score_add l (Fin a) = NonFinite
  end.
Proof.
  induction l as [|[x|] l IH]; intros a; simpl.
  - exists a. split; [reflexivity|]. now rewrite Qplus_0_r.
  - specialize (IH (Qred (a + x))). destruct (finite_scores l) as [qs|]; simpl.
    + destruct IH as (q & Hq & Heq). exists q. split; [exact Hq|].
      rewrite Heq, Qred_correct. now rewrite Qplus_assoc.
    + exact IH.
  - apply fold_score_add_nonfinite.
Qed.

Lemma finite_scores_length (l : list score) (qs : list Q) :
  finite_scores l = Some qs -> length qs = length l.
Proof.
  revert qs; induction l as [|[x|] l IH]; intros qs H; simpl in H.
  - now inversion H.
  - destruct (finite_scores l) as [qs'|]; [|discriminate].
    inversion H; subst. simpl. now rewrite (IH qs' eq_refl).
  - discriminate.
Qed.

Lemma py_mean_arithmetic (l : list score) :
  l <> [] -> py_mean l = Ok (arithmetic_mean l).
Proof.
  intros Hne. unfold py_mean, arithmetic_mean, py_sum.
  destruct (Z.eqb_spec (len l) 0) as [H0|_].
  - destruct l; [congruence | unfold len in H0; simpl in H0; lia].
  - f_equal. pose proof (fold_score_add l 0) as Hs.
    pose proof (finite_scores_length l) as Hl.
    destruct (finite_scores l) as [qs|].
    + destruct Hs as (q & -> & Heq). f_equal. apply Qred_complete.
      unfold len. rewrite (Hl qs eq_refl), Heq, Qplus_0_l. reflexivity.
    + now rewrite Hs.
Qed.

Lemma finite_scores_Fin (qs : list Q) : finite_scores (map Fin qs) = Some qs.
Proof. induction qs as [|q qs IH]; simpl; [reflexivity | now rewrite IH]. Qed.

(** ** The encoding of non-negative positions *)

Lemma marked_indicator (n : Z) (a : list Z) :
  Forall (fun v => 0 <= v) a -> marked n a = indicator n a.
Proof.
  intros Ha. unfold marked, indicator. apply map_ext. intros i.
  replace (existsb (fun v => wrap n v =? i) a) with (existsb (Z.eqb i) a);
    [reflexivity|].
  induction Ha as [|v a Hv _ IH]; [reflexivity|]. simpl. rewrite IH.
  unfold wrap. destruct (Z.ltb_spec v 0); [lia|]. now rewrite Z.eqb_sym.
Qed.

Lemma in_axis_bounded (m : Z) (l : list (list Z)) :
  Forall (Forall (fun v => 0 <= v)) l ->
  Forall (fun v => v <= m) (concat l) ->
  forallb (forallb (in_axis (m + 1))) l = true.
Proof.
  intros Hpos Hmax. rewrite Forall_forall in Hmax.
  apply forallb_forall. intros a Ha. apply forallb_forall. intros v Hv.
  rewrite Forall_forall in Hpos. specialize (Hpos a Ha).
  rewrite Forall_forall in Hpos. specialize (Hpos v Hv).
  assert (v <= m) by (apply Hmax, in_concat; exists a; split; assumption).
  unfold in_axis. destruct (Z.ltb_spec v (- (m + 1))); [lia|].
  destruct (Z.leb_spec (m + 1) v); [lia|]. reflexivity.
Qed.

Lemma bin_annotations_indicator (annotations : list (list Z)) (max_val : Z) :
  Forall (Forall (fun v => 0 <= v)) annotations ->
  In max_val (concat annotations) ->
  Forall (fun v => v <= max_val) (concat annotations) ->
  bin_annotations annotations
  = Ok (map (indicator (max_val + 1)) annotations).
Proof.
  intros Hpos Hin Hmax.
  rewrite (bin_annotations_closed _ max_val (py_max_greatest _ _ Hin Hmax)).
  assert (0 <= max_val).
  { apply in_concat in Hin as (a & Ha & Hv). rewrite Forall_forall in Hpos.
    specialize (Hpos a Ha). rewrite Forall_forall in Hpos. now apply Hpos. }
  destruct (Z.ltb_spec (max_val + 1) 0); [lia|].
  rewrite in_axis_bounded by assumption. f_equal.
  apply map_ext_in. intros a Ha. apply marked_indicator.
  rewrite Forall_forall in Hpos. now apply Hpos.
Qed.

Lemma indicator_nth (n : Z) (a : list Z) (i : Z) :
  0 <= i < n ->
  nth (Z.to_nat i) (indicator n a) 0 = if existsb (Z.eqb i) a then 1 else 0.
Proof.
  intros Hi. unfold indicator, range. rewrite map_map.
  rewrite (nth_indep _ 0
    ((fun x => if existsb (Z.eqb (Z.of_nat x)) a then 1 else 0) O))
    by (rewrite length_map, length_seq; lia).
  rewrite (map_nth (fun x => if existsb (Z.eqb (Z.of_nat x)) a then 1 else 0)).
  rewrite seq_nth by lia. simpl. now rewrite Z2Nat.id by lia.
Qed.

Lemma existsb_eqb_In (i : Z) (a : list Z) :
  existsb (Z.eqb i) a = true <-> In i a.
Proof.
  rewrite existsb_exists. split.
  - intros (x & Hx & Heq). apply Z.eqb_eq in Heq. now subst.
  - intros Hi. exists i. split; [exact Hi | apply Z.eqb_refl].
Qed.

(** ** The pairwise aggregator *)

(** C1, as the code has it: for [N >= 2] annotator sequences of
    non-negative integers that hold at least one value, [max_val] being the
    largest, the aggregator encodes every sequence as the binary indicator
    vector of length [max_val + 1] (index [i] holds 1 iff [i] appears in the
    sequence, 0 otherwise), calls the scoring function on the rows [i < j]
    of every unordered pair ([N (N - 1) / 2] pairs, none repeated) and, when
    each call returns a score, returns the arithmetic mean of those scores. *)
Theorem pairwise_evaluation_mean
    (fn : list Z -> list Z -> result score) (annotations : list (list Z))
    (max_val : Z) (s : nat -> nat -> score) :
  (2 <= length annotations)%nat ->
  Forall (Forall (fun v => 0 <= v)) annotations ->
  In max_val (concat annotations) ->
  Forall (fun v => v <= max_val) (concat annotations) ->
  let n := length annotations in
  let encode := indicator (max_val + 1) in
  (forall i j, (i < j < n)%nat ->
     fn (encode (nth i annotations [])) (encode (nth j annotations []))
     = Ok (s i j)) ->
  bin_annotations annotations = Ok (map encode annotations)
  /\ (forall a, len (encode a) = max_val + 1
        /\ forall i, 0 <= i <= max_val ->
             (In i a -> nth (Z.to_nat i) (encode a) 0 = 1)
             /\ (~ In i a -> nth (Z.to_nat i) (encode a) 0 = 0))
  /\ ((forall i j, In (i, j) (index_pairs n) <-> (i < j < n)%nat)
      /\ NoDup (index_pairs n)
      /\ Z.of_nat (length (index_pairs n))
         = Z.of_nat n * (Z.of_nat n - 1) / 2)
  /\ pairwise_evaluation fn annotations
     = Ok (arithmetic_mean
             (map (fun ij => s (fst ij) (snd ij)) (index_pairs n))).
Proof.
  intros HN Hpos Hin Hmax n encode Hfn.
  assert (H0 : 0 <= max_val).
  { apply in_concat in Hin as (a & Ha & Hv). rewrite Forall_forall in Hpos.
    specialize (Hpos a Ha). rewrite Forall_forall in Hpos. now apply Hpos. }
  pose proof (bin_annotations_indicator _ _ Hpos Hin Hmax) as Hbin.
  split; [exact Hbin|]. split; [|split].
  - intros a. split.
    + unfold encode, indicator, len. rewrite length_map, range_length. lia.
    + intros i Hi. unfold encode. rewrite indicator_nth by lia.
      pose proof (existsb_eqb_In i a) as Hex.
      destruct (existsb (Z.eqb i) a); split; intros H; try reflexivity.
      * exfalso. apply H, Hex. reflexivity.
      * apply Hex in H. discriminate.
  - split; [intros i j; apply index_pairs_In|].
    split; [apply index_pairs_NoDup | apply index_pairs_length].
  - unfold pairwise_evaluation. rewrite Hbin. simpl.
    rewrite (combinations2_index _ []), length_map, mapM_map. fold n.
    rewrite (mapM_ok _ (fun ij => s (fst ij) (snd ij))).
    + simpl. apply py_mean_arithmetic. intros Hnil.
      pose proof (index_pairs_length n) as Hl.
      apply (f_equal (@length score)) in Hnil.
      rewrite length_map in Hnil. rewrite Hnil in Hl. simpl in Hl.
      assert (1 <= Z.of_nat n * (Z.of_nat n - 1) / 2); [|lia].
      apply Z.div_le_lower_bound; [lia|]. unfold n. nia.
    + intros [i j] Hij. apply index_pairs_In in Hij. simpl.
      rewrite !(nth_indep (map encode annotations) [] (encode []))
        by (rewrite length_map; fold n; lia).
      rewrite !(map_nth encode). now apply Hfn.
Qed.

Lemma pairwise_evaluation_mean_witness :
  (2 <= length [[1; 3]; [0; 3]]%Z)%nat
  /\ Forall (Forall (fun v => 0 <= v)) [[1; 3]; [0; 3]]
  /\ In 3 (concat [[1; 3]; [0; 3]])
  /\ Forall (fun v => v <= 3) (concat [[1; 3]; [0; 3]])
  /\ bin_annotations [[1; 3]; [0; 3]] = Ok [[0; 1; 0; 1]; [1; 0; 0; 1]]
  /\ pairwise_pk [[1; 3]; [0; 3]] = Ok (Fin (1 # 2)).
Proof.
  assert (HN : (2 <= length [[1; 3]; [0; 3]]%Z)%nat) by (simpl; lia).
  assert (Hpos : Forall (Forall (fun v => 0 <= v)) [[1; 3]; [0; 3]])
    by (repeat constructor; lia).
  assert (Hin : In 3 (concat [[1; 3]; [0; 3]])) by (simpl; tauto).
  assert (Hmax : Forall (fun v => v <= 3) (concat [[1; 3]; [0; 3]]))
    by (simpl; repeat constructor; lia).
  assert (Hfn : forall i j, (i < j < 2)%nat ->
            pk (indicator (3 + 1) (nth i [[1; 3]; [0; 3]] []))
               (indicator (3 + 1) (nth j [[1; 3]; [0; 3]] [])) None 1
            = Ok (Fin (1 # 2))).
  { intros i j Hij. destruct i as [|i]; [|lia].
    destruct j as [|[|j]]; [lia | reflexivity | lia]. }
  pose proof (pairwise_evaluation_mean (fun a b => pk a b None 1) _ 3
                (fun _ _ => Fin (1 # 2)) HN Hpos Hin Hmax Hfn) as H.
  repeat (split; [assumption|]).
  split; [exact (proj1 H) | exact (proj2 (proj2 (proj2 H)))].
Defined.

(** C1 fails as stated: two annotators who marked nothing make [max] fail
    before any encoding or scoring. *)
Lemma pairwise_evaluation_empty_counterexample :
  (2 <= length [@nil Z; @nil Z])%nat
  /\ Forall (Forall (fun v => 0 <= v)) [@nil Z; @nil Z]
  /\ pairwise_evaluation (fun _ _ => Ok (Fin 0)) [[]; []]
     = Raise (ValueError "max() arg is an empty sequence").
Proof. repeat split; repeat constructor. Qed.

(** C5, as the code has it: the aggregator checks nothing about the number
    of annotators; given a single sequence of non-negative integers it
    raises [ZeroDivisionError] when the mean divides by the length of the
    empty score list (and [ValueError] from [max] if the sequence is empty),
    whatever the scoring function. *)
Theorem pairwise_evaluation_single
    (fn : list Z -> list Z -> result score) (a : list Z) :
  Forall (fun v => 0 <= v) a ->
  pairwise_evaluation fn [a]
  = match a with
    | [] => Raise (ValueError "max() arg is an empty sequence")
    | _ :: _ => Raise ZeroDivisionError
    end.
Proof.
  intros Hpos. destruct a as [|x xs]; [reflexivity|].
  destruct (fold_max_spec xs x) as [Hin Hmax].
  unfold pairwise_evaluation.
  rewrite (bin_annotations_indicator [x :: xs] (fold_left Z.max xs x)).
  - reflexivity.
  - now constructor.
  - simpl concat. now rewrite app_nil_r.
  - simpl concat. now rewrite app_nil_r.
Qed.

Lemma pairwise_evaluation_single_witness :
  Forall (fun v => 0 <= v) [1; 2]
  /\ pairwise_kappa [[1; 2]] = Raise ZeroDivisionError.
Proof.
  assert (H : Forall (fun v => 0 <= v) [1; 2]) by (repeat constructor; lia).
  split; [exact H | exact (pairwise_evaluation_single kappa [1; 2] H)].
Defined.

(** C5 fails as stated: with one annotator the error is the division's, not
    a precondition error. *)
Lemma pairwise_evaluation_single_counterexample :
  pairwise_pk [[1; 2]] = Raise ZeroDivisionError
  /\ pairwise_pk [[1; 2]]
     <> Raise (ValueError "at least two annotators required").
Proof. split; [reflexivity | discriminate]. Qed.

(** ** Cohen's kappa of a vector with itself *)

Lemma unique_labels_binary (l : list Z) :
  Forall (fun x => x = 0 \/ x = 1) l ->
  unique_labels l
  = (if existsb (Z.eqb 0) l then [0] else [])
    ++ (if existsb (Z.eqb 1) l then [1] else []).
Proof.
  induction 1 as [|x l Hx _ IH]; [reflexivity|].
  simpl. rewrite IH.
  destruct Hx as [-> | ->]; simpl;
    destruct (existsb (Z.eqb 0) l), (existsb (Z.eqb 1) l); reflexivity.
Qed.

Lemma count_pairs_diag (i j : Z) (a : list Z) :
  count_pairs i j (combine a a) = if i =? j then count i a else 0.
Proof.
  unfold count_pairs, count, len. destruct (Z.eqb_spec i j) as [<-|Hij].
  - f_equal. induction a as [|x a IH]; [reflexivity|]. simpl.
    destruct (Z.eq_dec x i) as [->|Hne].
    + rewrite Z.eqb_refl. simpl. now rewrite IH.
    + destruct (Z.eqb_spec x i); [congruence|]. simpl. exact IH.
  - induction a as [|x a IH]; [reflexivity|]. simpl.
    destruct (Z.eqb_spec x i), (Z.eqb_spec x j); simpl; try exact IH.
    congruence.
Qed.

Lemma count_pos (x : Z) (a : list Z) : In x a -> 0 < count x a.
Proof. intros H. apply (count_occ_In Z.eq_dec) in H. unfold count. lia. Qed.

Lemma np_div_one (po pe : Q) :
  (po == 1)%Q -> ~ (pe == 1)%Q -> np_div (Fin (po - pe)) (Fin (1 - pe)) = Fin 1.
Proof.
  intros Hpo Hpe. unfold np_div.
  assert (Hd : ~ (1 - pe == 0)%Q).
  { intros H. apply Hpe. rewrite <- (Qplus_0_l pe), <- H. ring. }
  destruct (Qeq_bool (1 - pe) 0) eqn:E.
  - apply Qeq_bool_iff in E. contradiction.
  - f_equal. apply (Qred_complete _ 1). rewrite Hpo. now field.
Qed.

Lemma kappa_diagonal (c0 c1 : Z) :
  0 < c0 -> 0 < c1 -> cohens_kappa [[c0; 0]; [0; c1]] = Fin 1.
Proof.
  intros H0 H1. unfold cohens_kappa.
  cbn [length seq map sumZ fold_right entry nth].
  replace (c0 + (0 + 0) + (0 + (c1 + 0) + 0)) with (c0 + c1) by lia.
  replace (c0 + (c1 + 0)) with (c0 + c1) by lia.
  replace (c0 + (0 + 0)) with c0 by lia.
  replace (0 + (c1 + 0)) with c1 by lia.
  destruct (Z.eqb_spec (c0 + c1) 0); [lia|].
  assert (Hn : (0 < inject_Z (c0 + c1))%Q)
    by (change (inject_Z 0 < inject_Z (c0 + c1))%Q; rewrite <- Zlt_Qlt; lia).
  assert (Hx : (0 < inject_Z c0)%Q)
    by (change (inject_Z 0 < inject_Z c0)%Q; rewrite <- Zlt_Qlt; lia).
  assert (Hy : (0 < inject_Z c1)%Q)
    by (change (inject_Z 0 < inject_Z c1)%Q; rewrite <- Zlt_Qlt; lia).
  assert (Hs : (inject_Z (c0 + c1) == inject_Z c0 + inject_Z c1)%Q)
    by (rewrite inject_Z_plus; reflexivity).
  set (x := inject_Z c0) in *. set (y := inject_Z c1) in *.
  set (t := inject_Z (c0 + c1)) in *.
  apply np_div_one.
  - field. lra.
  - intros H.
    assert (Hxy : (x * x + y * y == t * t)%Q).
    { rewrite <- (Qmult_1_l (t * t)), <- H. field. lra. }
    nra.
Qed.

(** C9: for a binary indicator vector that holds both 0s and 1s, the
    confusion matrix of the vector with itself is the diagonal 2x2 table of
    its counts, Cohen's kappa of that table is exactly 1, and so is the
    pairwise kappa of two annotators whose encoding is that vector. *)
Theorem kappa_identical (a : list Z) :
  Forall (fun x => x = 0 \/ x = 1) a -> In 0 a -> In 1 a ->
  confusion_matrix a a = Ok [[count 0 a; 0]; [0; count 1 a]]
  /\ kappa a a = Ok (Fin 1)
  /\ forall annotation,
       bin_annotations [annotation; annotation] = Ok [a; a] ->
       pairwise_kappa [annotation; annotation] = Ok (Fin 1).
Proof.
  intros Hbin H0 H1.
  assert (Hcm : confusion_matrix a a = Ok [[count 0 a; 0]; [0; count 1 a]]).
  { unfold confusion_matrix. rewrite Z.eqb_refl. simpl negb. cbv iota.
    rewrite unique_labels_binary by (apply Forall_app; split; exact Hbin).
    rewrite !existsb_app.
    rewrite (proj2 (existsb_eqb_In 0 a) H0), (proj2 (existsb_eqb_In 1 a) H1).
    simpl. now rewrite !count_pairs_diag. }
  assert (Hk : kappa a a = Ok (Fin 1)).
  { unfold kappa. rewrite Hcm. simpl bind.
    now rewrite kappa_diagonal by (apply count_pos; assumption). }
  split; [exact Hcm|]. split; [exact Hk|].
  intros annotation Henc. unfold pairwise_kappa, pairwise_evaluation.
  rewrite Henc. simpl. rewrite Hk. reflexivity.
Qed.

Lemma kappa_identical_witness :
  Forall (fun x => x = 0 \/ x = 1) [0; 1; 0; 1]
  /\ In 0 [0; 1; 0; 1] /\ In 1 [0; 1; 0; 1]
  /\ kappa [0; 1; 0; 1] [0; 1; 0; 1] = Ok (Fin 1)
  /\ pairwise_kappa [[1; 3]; [1; 3]] = Ok (Fin 1).
Proof.
  assert (Hb : Forall (fun x => x = 0 \/ x = 1) [0; 1; 0; 1])
    by (repeat constructor; auto).
  assert (H0 : In 0 [0; 1; 0; 1]) by (left; reflexivity).
  assert (H1 : In 1 [0; 1; 0; 1]) by (right; left; reflexivity).
  pose proof (kappa_identical _ Hb H0 H1) as H.
  repeat (split; [assumption|]).
  split; [exact (proj1 (proj2 H))|].
  exact (proj2 (proj2 H) [1; 3] eq_refl).
Defined.

(** ** The docstring examples

    The segmentations of the docstrings, written as lists of 0 and 1; the
    docstrings print the scores with two decimals (0.30, 0.80, 0.50). *)

Example windowdiff_doc_identical :
  windowdiff [0;0;0;1;0;0;0;0;0;0;1;0] [0;0;0;1;0;0;0;0;0;0;1;0] 3 1 false
  = Ok (Fin 0).
Proof. reflexivity. Qed.

Example windowdiff_doc_near :
  windowdiff [0;0;0;1;0;0;0;0;0;0;1;0] [0;0;0;0;1;0;0;0;0;1;0;0] 3 1 false
  = Ok (Fin (3 # 10)).
Proof. reflexivity. Qed.

Example windowdiff_doc_far :
  windowdiff [0;0;0;0;1;0;0;0;0;1;0;0] [1;0;0;0;0;0;0;1;0;0;0;0] 3 1 false
  = Ok (Fin (4 # 5)).
Proof. reflexivity. Qed.

Example pk_doc_all_boundaries :
  pk (concat (repeat [0; 1; 0; 0] 100)) (repeat 1 400%nat) (Some 2) 1
  = Ok (Fin (199 # 399)).
Proof. vm_compute. reflexivity. Qed.

Example pk_doc_no_boundary :
  pk (concat (repeat [0; 1; 0; 0] 100)) (repeat 0 400%nat) (Some 2) 1
  = Ok (Fin (200 # 399)).
Proof. vm_compute. reflexivity. Qed.

Example pk_doc_identical :
  pk (concat (repeat [0; 1; 0; 0] 100)) (concat (repeat [0; 1; 0; 0] 100))
     (Some 2) 1
  = Ok (Fin 0).
Proof. vm_compute. reflexivity. Qed.

(** * Further properties of the metrics *)

(** ** Sums over window positions *)

Lemma sum_upto_ext (f g : Z -> Z) (n : nat) :
  (forall i, 0 <= i < Z.of_nat n -> f i = g i) -> sum_upto f n = sum_upto g n.
Proof.
  induction n as [|m IH]; intros H; [reflexivity|]. cbn [sum_upto].
  rewrite IH by (intros; apply H; lia). rewrite H by lia. reflexivity.
Qed.

Lemma sum_upto_le (f g : Z -> Z) (n : nat) :
  (forall i, 0 <= i < Z.of_nat n -> f i <= g i) ->
  sum_upto f n <= sum_upto g n.
Proof.
  induction n as [|m IH]; intros H; [reflexivity|]. cbn [sum_upto].
  specialize (H (Z.of_nat m) ltac:(lia)) as Hm.
  assert (sum_upto f m <= sum_upto g m) by (apply IH; intros; apply H; lia).
  lia.
Qed.


Lemma ratio_le (a b n : Z) :
  a <= b -> 0 < n ->
  (Qred (inject_Z a / inject_Z n) <= Qred (inject_Z b / inject_Z n))%Q.
Proof.
  intros Hab Hn. rewrite !Qred_correct. unfold Qdiv.
  apply Qmult_le_compat_r.
  - rewrite <- Zle_Qle. exact Hab.
  - apply Qinv_le_0_compat. change (inject_Z 0 <= inject_Z n)%Q.
    rewrite <- Zle_Qle. lia.
Qed.


(** The value of [windowdiff] on admissible arguments. *)
Lemma windowdiff_value (seg1 seg2 : list Z) (k boundary : Z) (weighted : bool) :
  len seg1 = len seg2 -> 0 <= k <= len seg1 ->
  windowdiff seg1 seg2 k boundary weighted
  = Ok (Fin (Qred
      (inject_Z (sum_upto
                   (fun i => if weighted then count_diff seg1 seg2 k boundary i
                             else Z.min 1 (count_diff seg1 seg2 k boundary i))
                   (Z.to_nat (len seg1 - k + 1)))
       / inject_Z (len seg1 - k + 1)))).
Proof.
  intros Hlen Hk. unfold windowdiff. rewrite Hlen, Z.eqb_refl. simpl.
  destruct (Z.ltb_spec (len seg2) k); [lia|].
  rewrite <- Hlen, windowdiff_loop by lia. unfold float_div.
  destruct (Z.eqb_spec (len seg1 - k + 1) 0); [lia|]. reflexivity.
Qed.

(** The value of [pk] for an explicit window size. *)
Lemma pk_value (ref hyp : list Z) (k boundary : Z) :
  0 <= k <= len ref ->
  pk ref hyp (Some k) boundary
  = Ok (Fin (Qred
      (inject_Z (sum_upto (fun i => if disagree ref hyp k boundary i
                                    then 1 else 0)
                          (Z.to_nat (len ref - k + 1)))
       / inject_Z (len ref - k + 1)))).
Proof.
  intros Hk. rewrite pk_explicit by lia. unfold float_div.
  destruct (Z.eqb_spec (len ref - k + 1) 0); [lia|]. reflexivity.
Qed.

Lemma count_window_bounds (boundary : Z) (l : list Z) (i k : Z) :
  0 <= k -> 0 <= count boundary (window l i k) <= k.
Proof.
  intros Hk. unfold count, window. split; [lia|].
  pose proof (count_occ_bound Z.eq_dec boundary
                (firstn (Z.to_nat k) (skipn (Z.to_nat i) l))) as Hb.
  pose proof (firstn_le_length (Z.to_nat k) (skipn (Z.to_nat i) l)). lia.
Qed.

Lemma sum_upto_const_zero (n : nat) : sum_upto (fun _ => 0) n = 0.
Proof. induction n as [|m IH]; cbn [sum_upto]; lia. Qed.

Lemma score_zero (n : Z) : n <> 0 -> float_div 0 n = Ok (Fin 0).
Proof.
  intros Hn. unfold float_div. destruct (Z.eqb_spec n 0); [contradiction|].
  now rewrite (proj2 (ratio_zero 0 n Hn) eq_refl).
Qed.

(** ** A segmentation compared with itself *)

Lemma windowdiff_self (s : list Z) (k boundary : Z) (weighted : bool) :
  k <= len s -> windowdiff s s k boundary weighted = Ok (Fin 0).
Proof.
  intros Hk. unfold windowdiff. rewrite Z.eqb_refl. simpl.
  destruct (Z.ltb_spec (len s) k); [lia|].
  rewrite (fold_left_sum _ (fun _ => 0)).
  - rewrite sumZ_range, sum_upto_const_zero. apply score_zero. lia.
  - intros acc i _. unfold windowdiff_step. rewrite Z.sub_diag. simpl.
    destruct weighted; lia.
Qed.

Lemma pk_self (s : list Z) (k boundary : Z) :
  k <= len s -> pk s s (Some k) boundary = Ok (Fin 0).
Proof.
  intros Hk. unfold pk. simpl.
  rewrite (fold_left_sum _ (fun _ => 0)).
  - rewrite sumZ_range, sum_upto_const_zero. apply score_zero. lia.
  - intros acc i _. unfold pk_step. rewrite eqb_reflx. simpl. lia.
Qed.

(** X1: comparing a segmentation with itself gives the score 0, for
    WindowDiff (weighted or not) and for Pk with an explicit window size,
    whenever [k <= len(s)], non-positive widths included. *)
Theorem identical_segmentations_score_zero
    (s : list Z) (k boundary : Z) (weighted : bool) :
  k <= len s ->
  windowdiff s s k boundary weighted = Ok (Fin 0)
  /\ pk s s (Some k) boundary = Ok (Fin 0).
Proof.
  intros Hk. split; [now apply windowdiff_self | now apply pk_self].
Qed.

Lemma identical_segmentations_score_zero_witness :
  -1 <= len [0; 1; 0]
  /\ windowdiff [0; 1; 0] [0; 1; 0] (-1) 1 true = Ok (Fin 0)
  /\ pk [0; 1; 0] [0; 1; 0] (Some (-1)) 1 = Ok (Fin 0).
Proof.
  assert (H : -1 <= len [0; 1; 0]) by (unfold len; simpl; lia).
  split; [exact H|].
  exact (identical_segmentations_score_zero [0; 1; 0] (-1) 1 true H).
Defined.

(** ** The default window of Pk *)

Lemma count_le_len (boundary : Z) (l : list Z) : 0 <= count boundary l <= len l.
Proof.
  unfold count, len. pose proof (count_occ_bound Z.eq_dec boundary l). lia.
Qed.

Lemma default_window_bounds (n c : Z) :
  0 < c <= n -> 1 <= (n + c) / (2 * c) <= n.
Proof.
  intros Hc. split.
  - apply Z.div_le_lower_bound; lia.
  - apply Z.div_le_upper_bound; [lia|]. nia.
Qed.

Lemma py_round_default (n c : Z) :
  0 <= n -> 0 <= c ->
  py_round (inject_Z n / inject_Z (2 * c)) = (n + c) / (2 * c).
Proof.
  intros Hn Hc. rewrite py_round_ratio by lia.
  replace (2 * n + 2 * c) with ((n + c) * 2) by lia.
  replace (2 * (2 * c)) with (2 * c * 2) by lia.
  destruct (Z.eq_dec c 0) as [->|Hc0].
  - simpl. now rewrite !Z.div_0_r.
  - apply Z.div_mul_cancel_r; lia.
Qed.

(** X2: when the reference holds at least one boundary symbol, the default
    window size lies between 1 and [len(ref)], so [pk] without a window size
    raises nothing and returns a score in [[0, 1]], whatever the hypothesis
    (of any length). *)
Theorem pk_default_total (ref hyp : list Z) (boundary : Z) :
  count boundary ref <> 0 ->
  exists k q,
    default_k ref boundary = Ok k /\ 1 <= k <= len ref
    /\ pk ref hyp None boundary = Ok (Fin q) /\ (0 <= q <= 1)%Q.
Proof.
  intros Hc. pose proof (count_le_len boundary ref) as Hb.
  set (c := count boundary ref) in *.
  set (k := (len ref + c) / (2 * c)).
  assert (Hk : 1 <= k <= len ref) by (apply default_window_bounds; lia).
  assert (Hd : py_round (inject_Z (len ref) / inject_Z (2 * c)) = k)
    by (apply py_round_default; [apply len_nonneg | lia]).
  exists k. eexists. split; [|split; [exact Hk|]].
  - unfold default_k. fold c. rewrite (Z.mul_comm c 2).
    destruct (Z.eqb_spec (2 * c) 0); [lia|]. now rewrite Hd.
  - rewrite pk_default_unfold. fold c.
    destruct (Z.eqb_spec c 0); [contradiction|]. rewrite Hd.
    rewrite pk_value by lia. split; [reflexivity|].
    rewrite Qred_correct. apply ratio_bounds; [|lia].
    pose proof (disagree_count_bounds ref hyp k boundary
                  (Z.to_nat (len ref - k + 1))). lia.
Qed.

Lemma pk_default_total_witness :
  count 1 [0; 1; 0; 0; 0; 0] <> 0
  /\ exists k q,
       default_k [0; 1; 0; 0; 0; 0] 1 = Ok k /\ 1 <= k <= len [0; 1; 0; 0; 0; 0]
       /\ pk [0; 1; 0; 0; 0; 0] [1; 1] None 1 = Ok (Fin q) /\ (0 <= q <= 1)%Q.
Proof.
  assert (H : count 1 [0; 1; 0; 0; 0; 0] <> 0) by discriminate.
  split; [exact H|].
  exact (pk_default_total [0; 1; 0; 0; 0; 0] [1; 1] 1 H).
Defined.

(** X3: with its default window size, Pk of a segmentation compared with
    itself is 0 when the segmentation holds a boundary symbol, and raises
    [ZeroDivisionError] when it holds none. *)
Theorem pk_default_identical (s : list Z) (boundary : Z) :
  pk s s None boundary
  = if count boundary s =? 0 then Raise ZeroDivisionError else Ok (Fin 0).
Proof.
  rewrite pk_default_unfold.
  destruct (Z.eqb_spec (count boundary s) 0) as [|Hc]; [reflexivity|].
  pose proof (count_le_len boundary s) as Hb.
  rewrite py_round_default by (try apply len_nonneg; lia).
  pose proof (default_window_bounds (len s) (count boundary s) ltac:(lia)) as Hk.
  apply pk_self. lia.
Qed.

(** ** Pk and the length of the hypothesis *)

Lemma window_firstn {A : Type} (l : list A) (n : nat) (i k : Z) :
  0 <= i -> 0 <= k -> i + k <= Z.of_nat n ->
  window (firstn n l) i k = window l i k.
Proof.
  intros Hi Hk Hn. unfold window.
  rewrite skipn_firstn_comm, firstn_firstn. f_equal. lia.
Qed.

(** X4: [pk] never looks at the hypothesis beyond the length of the
    reference: symbols of [hyp] at positions [len(ref)] and later are
    ignored, with an explicit non-negative window size as with the default
    one. *)
Theorem pk_ignores_hyp_tail (ref hyp : list Z) (k : option Z) (boundary : Z) :
  match k with Some w => 0 <= w | None => True end ->
  pk ref (firstn (length ref) hyp) k boundary = pk ref hyp k boundary.
Proof.
  assert (Hex : forall w, 0 <= w ->
            pk ref (firstn (length ref) hyp) (Some w) boundary
            = pk ref hyp (Some w) boundary).
  { intros w Hw. rewrite !pk_explicit by exact Hw. f_equal.
    apply sum_upto_ext. intros i Hi. unfold disagree.
    rewrite window_firstn; [reflexivity | | |]; unfold len in Hi; lia. }
  destruct k as [w|]; intros Hk; [now apply Hex|].
  rewrite !pk_default_unfold.
  destruct (Z.eqb_spec (count boundary ref) 0); [reflexivity|].
  apply Hex. pose proof (count_le_len boundary ref).
  rewrite py_round_default by (try apply len_nonneg; lia).
  apply Z.div_pos; pose proof (len_nonneg ref); lia.
Qed.

Lemma pk_ignores_hyp_tail_witness :
  pk [0; 1; 0] (firstn 3 [1; 0; 0; 1; 1]) (Some 2) 1
  = pk [0; 1; 0] [1; 0; 0; 1; 1] (Some 2) 1.
Proof.
  apply (pk_ignores_hyp_tail [0; 1; 0] [1; 0; 0; 1; 1] (Some 2) 1). lia.
Defined.

(** ** WindowDiff: range, zero, and comparison with Pk *)

(** X5: for sequences of equal length and [0 <= k <= length], the weighted
    WindowDiff score lies between the unweighted score and [k]. *)
Theorem windowdiff_weighted_bounds (seg1 seg2 : list Z) (k boundary : Z) :
  len seg1 = len seg2 -> 0 <= k <= len seg1 ->
  exists qu qw,
    windowdiff seg1 seg2 k boundary false = Ok (Fin qu)
    /\ windowdiff seg1 seg2 k boundary true = Ok (Fin qw)
    /\ (0 <= qu)%Q /\ (qu <= qw)%Q /\ (qw <= inject_Z k)%Q.
Proof.
  intros Hlen Hk. set (n := len seg1 - k + 1).
  assert (Hn : 0 < n) by (unfold n; lia).
  assert (Hd : forall i, 0 <= count_diff seg1 seg2 k boundary i <= k).
  { intros i. unfold count_diff.
    pose proof (count_window_bounds boundary seg1 i k ltac:(lia)).
    pose proof (count_window_bounds boundary seg2 i k ltac:(lia)). lia. }
  do 2 eexists. rewrite !windowdiff_value by assumption. fold n.
  split; [reflexivity|]. split; [reflexivity|]. split; [|split].
  - rewrite Qred_correct. apply ratio_bounds; [|exact Hn].
    pose proof (sum_upto_bounds
      (fun i => Z.min 1 (count_diff seg1 seg2 k boundary i)) 0 1 (Z.to_nat n)) as Hb.
    rewrite Z.mul_0_l, Z.mul_1_l, Z2Nat.id in Hb by lia. apply Hb.
    intros i _. specialize (Hd i). lia.
  - apply ratio_le; [|exact Hn]. apply sum_upto_le. intros i _. lia.
  - rewrite Qred_correct. apply Qle_shift_div_r.
    + change (inject_Z 0 < inject_Z n)%Q. rewrite <- Zlt_Qlt. exact Hn.
    + rewrite <- inject_Z_mult, <- Zle_Qle.
      pose proof (sum_upto_bounds
                    (fun i => if true then count_diff seg1 seg2 k boundary i
                              else Z.min 1 (count_diff seg1 seg2 k boundary i))
                    0 k (Z.to_nat n) (fun i _ => Hd i)) as Hb.
      rewrite Z2Nat.id in Hb by lia. lia.
Qed.

Lemma windowdiff_weighted_bounds_witness :
  exists qu qw,
    windowdiff [1; 1; 0; 0] [0; 0; 0; 1] 2 1 false = Ok (Fin qu)
    /\ windowdiff [1; 1; 0; 0] [0; 0; 0; 1] 2 1 true = Ok (Fin qw)
    /\ (0 <= qu)%Q /\ (qu <= qw)%Q /\ (qw <= inject_Z 2)%Q.
Proof.
  apply (windowdiff_weighted_bounds [1; 1; 0; 0] [0; 0; 0; 1] 2 1).
  - reflexivity.
  - unfold len; simpl; lia.
Defined.

(** X6: for sequences of equal length and [0 <= k <= length], the
    WindowDiff score (weighted or not) is 0 exactly when the two windows hold
    the same number of boundary symbols at every window position. *)
Theorem windowdiff_zero_iff (seg1 seg2 : list Z) (k boundary : Z)
    (weighted : bool) :
  len seg1 = len seg2 -> 0 <= k <= len seg1 ->
  (windowdiff seg1 seg2 k boundary weighted = Ok (Fin 0)
   <-> forall i, 0 <= i < len seg1 - k + 1 ->
         count boundary (window seg1 i k) = count boundary (window seg2 i k)).
Proof.
  intros Hlen Hk. rewrite windowdiff_value by assumption.
  set (n := len seg1 - k + 1). assert (Hn : 0 < n) by (unfold n; lia).
  set (f := fun i => if weighted then count_diff seg1 seg2 k boundary i
                     else Z.min 1 (count_diff seg1 seg2 k boundary i)).
  assert (Hf : forall i, 0 <= f i) by (intros i; unfold f, count_diff; destruct weighted; lia).
  assert (Hz : forall i, f i = 0 <->
            count boundary (window seg1 i k) = count boundary (window seg2 i k))
    by (intros i; unfold f, count_diff; destruct weighted; lia).
  split.
  - intros H. assert (Hq : Qred (inject_Z (sum_upto f (Z.to_nat n)) / inject_Z n) = 0%Q)
      by congruence.
    apply ratio_zero in Hq; [|lia].
    rewrite sum_upto_zero in Hq by (intros; apply Hf).
    intros i Hi. apply Hz, Hq. lia.
  - intros H. do 2 f_equal. apply ratio_zero; [lia|].
    apply sum_upto_zero; [intros; apply Hf|].
    intros i Hi. apply Hz, H. lia.
Qed.

Lemma windowdiff_zero_iff_witness :
  windowdiff [1; 0; 0; 1] [0; 1; 0; 1] 2 1 false = Ok (Fin 0)
  <-> forall i, 0 <= i < len [1; 0; 0; 1] - 2 + 1 ->
        count 1 (window [1; 0; 0; 1] i 2) = count 1 (window [0; 1; 0; 1] i 2).
Proof.
  apply (windowdiff_zero_iff [1; 0; 0; 1] [0; 1; 0; 1] 2 1 false).
  - reflexivity.
  - unfold len; simpl; lia.
Defined.

Lemma disagree_count_diff (ref hyp : list Z) (k boundary i : Z) :
  (if disagree ref hyp k boundary i then 1 else 0)
  <= Z.min 1 (count_diff ref hyp k boundary i).
Proof.
  unfold disagree, count_diff. rewrite <- !has_boundary_count.
  destruct (Z.ltb_spec 0 (count boundary (window ref i k))),
           (Z.ltb_spec 0 (count boundary (window hyp i k))); simpl; try lia.
Qed.

(** X7: for sequences of equal length and [0 <= k <= length], the Pk score
    never exceeds the unweighted WindowDiff score: a window position where
    the two sequences disagree on the presence of a boundary is one where
    their boundary counts differ. *)
Theorem pk_le_windowdiff (ref hyp : list Z) (k boundary : Z) :
  len ref = len hyp -> 0 <= k <= len ref ->
  exists p w,
    pk ref hyp (Some k) boundary = Ok (Fin p)
    /\ windowdiff ref hyp k boundary false = Ok (Fin w)
    /\ (p <= w)%Q.
Proof.
  intros Hlen Hk. do 2 eexists.
  rewrite pk_value, windowdiff_value by assumption.
  split; [reflexivity|]. split; [reflexivity|].
  apply ratio_le; [|lia]. apply sum_upto_le. intros i _.
  apply disagree_count_diff.
Qed.

Lemma pk_le_windowdiff_witness :
  exists p w,
    pk [1; 1; 0; 0] [1; 0; 0; 0] (Some 2) 1 = Ok (Fin p)
    /\ windowdiff [1; 1; 0; 0] [1; 0; 0; 0] 2 1 false = Ok (Fin w)
    /\ (p <= w)%Q.
Proof.
  apply (pk_le_windowdiff [1; 1; 0; 0] [1; 0; 0; 0] 2 1).
  - reflexivity.
  - unfold len; simpl; lia.
Defined.

(** ** Triangle inequalities *)






(** X10: a window of width 0 is accepted silently and makes every score 0:
    [pk] for any two sequences, [windowdiff] for any two sequences of equal
    length. *)
Theorem zero_width_window (seg1 seg2 : list Z) (boundary : Z) (weighted : bool) :
  pk seg1 seg2 (Some 0) boundary = Ok (Fin 0)
  /\ (len seg1 = len seg2 ->
      windowdiff seg1 seg2 0 boundary weighted = Ok (Fin 0)).
Proof.
  pose proof (len_nonneg seg1) as Hl. split.
  - rewrite pk_explicit by lia.
    rewrite (sum_upto_ext _ (fun _ => 0)) by reflexivity.
    rewrite sum_upto_const_zero. apply score_zero. lia.
  - intros Hlen. rewrite windowdiff_value by lia.
    rewrite (sum_upto_ext _ (fun _ => 0))
      by (intros i _; unfold count_diff, window; simpl; now destruct weighted).
    rewrite sum_upto_const_zero.
    now rewrite (proj2 (ratio_zero 0 (len seg1 - 0 + 1) ltac:(lia)) eq_refl).
Qed.

Lemma zero_width_window_witness :
  windowdiff [1; 1; 0] [0; 0; 1] 0 1 true = Ok (Fin 0).
Proof.
  apply (proj2 (zero_width_window [1; 1; 0] [0; 0; 1] 1 true)). reflexivity.
Defined.

(** ** The aggregator, pair by pair *)

Lemma mapM_raise_inv {A B : Type} (f : A -> result B) (l : list A) (e : exn) :
  mapM f l = Raise e -> exists x, In x l /\ f x = Raise e.
Proof.
  induction l as [|x l IH]; simpl; [discriminate|].
  destruct (f x) as [y|e'] eqn:Hx; simpl.
  - destruct (mapM f l) as [ys|e'']; simpl; [discriminate|].
    intros H. inversion H; subst. destruct (IH eq_refl) as (z & Hz & Hfz).
    exists z. split; [now right | exact Hfz].
  - intros H. inversion H; subst. exists x. split; [now left | exact Hx].
Qed.

Lemma mapM_ok_inv {A B : Type} (f : A -> result B) (l : list A) (ys : list B) :
  mapM f l = Ok ys -> forall x, In x l -> exists y, f x = Ok y.
Proof.
  revert ys; induction l as [|x l IH]; intros ys H z Hz; [contradiction|].
  simpl in H. destruct (f x) as [y|e] eqn:Hx; simpl in H; [|discriminate].
  destruct (mapM f l) as [ys'|e] eqn:Hl; simpl in H; [|discriminate].
  destruct Hz as [<-|Hz]; [now exists y | exact (IH ys' eq_refl z Hz)].
Qed.

(** The aggregator on non-negative markers, as a loop over index pairs. *)
Lemma pairwise_evaluation_pairs
    (fn : list Z -> list Z -> result score) (annotations : list (list Z))
    (max_val : Z) :
  Forall (Forall (fun v => 0 <= v)) annotations ->
  In max_val (concat annotations) ->
  Forall (fun v => v <= max_val) (concat annotations) ->
  pairwise_evaluation fn annotations
  = (scores <- mapM (fun ij =>
                       fn (indicator (max_val + 1) (nth (fst ij) annotations []))
                          (indicator (max_val + 1) (nth (snd ij) annotations [])))
                    (index_pairs (length annotations)) ;;
     py_mean scores).
Proof.
  intros Hpos Hin Hmax. unfold pairwise_evaluation.
  rewrite (bin_annotations_indicator _ _ Hpos Hin Hmax). simpl.
  rewrite (combinations2_index _ []), length_map, mapM_map. f_equal.
  assert (Hext : forall (l : list (nat * nat)) f g,
            (forall x, In x l -> f x = g x) ->
            @mapM _ score f l = mapM g l).
  { induction l as [|x l IH]; intros f g H; [reflexivity|]. simpl.
    rewrite (H x) by (now left). now rewrite (IH f g) by (intros; apply H; now right). }
  apply Hext. intros [i j] Hij. apply index_pairs_In in Hij. simpl.
  rewrite !(nth_indep (map (indicator (max_val + 1)) annotations) []
              (indicator (max_val + 1) []))
    by (rewrite length_map; lia).
  now rewrite !(map_nth (indicator (max_val + 1))).
Qed.

Lemma index_pairs_nonempty (n : nat) : (2 <= n)%nat -> index_pairs n <> [].
Proof.
  intros Hn Hnil. assert (H : In (0%nat, 1%nat) (index_pairs n))
    by (apply index_pairs_In; lia).
  rewrite Hnil in H. contradiction.
Qed.

(** X11: an exception raised by the scoring function on any pair of rows
    aborts the aggregation: the aggregator returns no mean but raises an
    exception that the scoring function raised on some pair. *)
Theorem pairwise_evaluation_propagates
    (fn : list Z -> list Z -> result score) (annotations : list (list Z))
    (max_val : Z) (i j : nat) (e : exn) :
  Forall (Forall (fun v => 0 <= v)) annotations ->
  In max_val (concat annotations) ->
  Forall (fun v => v <= max_val) (concat annotations) ->
  (i < j < length annotations)%nat ->
  fn (indicator (max_val + 1) (nth i annotations []))
     (indicator (max_val + 1) (nth j annotations [])) = Raise e ->
  exists e' i' j',
    (i' < j' < length annotations)%nat
    /\ fn (indicator (max_val + 1) (nth i' annotations []))
          (indicator (max_val + 1) (nth j' annotations [])) = Raise e'
    /\ pairwise_evaluation fn annotations = Raise e'.
Proof.
  intros Hpos Hin Hmax Hij He.
  rewrite (pairwise_evaluation_pairs fn _ _ Hpos Hin Hmax).
  destruct (mapM _ (index_pairs (length annotations))) as [scores|e'] eqn:Hm.
  - apply mapM_ok_inv with (x := (i, j)) in Hm; [|now apply index_pairs_In].
    destruct Hm as (y & Hy). simpl in Hy. congruence.
  - destruct (mapM_raise_inv _ _ _ Hm) as ([i' j'] & Hin' & Hf).
    exists e', i', j'. apply index_pairs_In in Hin'. simpl in Hf.
    split; [exact Hin'|]. split; [exact Hf | reflexivity].
Qed.

Lemma pairwise_evaluation_propagates_witness :
  exists e' i' j',
    (i' < j' < length [[0; 1]; [1]; [0]]%Z)%nat
    /\ windowdiff (indicator (1 + 1) (nth i' [[0; 1]; [1]; [0]] []))
                  (indicator (1 + 1) (nth j' [[0; 1]; [1]; [0]] [])) 3 1 false
       = Raise e'
    /\ pairwise_windowdiff [[0; 1]; [1]; [0]] 3 = Raise e'.
Proof.
  apply (pairwise_evaluation_propagates
           (fun a b => windowdiff a b 3 1 false) [[0; 1]; [1]; [0]] 1 1 2
           (ValueError
              "Window width k should be smaller or equal than segmentation lengths")).
  - repeat constructor; lia.
  - simpl; tauto.
  - simpl; repeat constructor; lia.
  - simpl; lia.
  - reflexivity.
Defined.

(** ** Means of bounded scores *)

Lemma mapM_all_raise {A B : Type} (f : A -> result B) (l : list A) (e : exn) :
  l <> [] -> (forall x, In x l -> f x = Raise e) -> mapM f l = Raise e.
Proof.
  destruct l as [|x l]; intros Hne H; [contradiction|].
  simpl. now rewrite (H x) by (now left).
Qed.

Lemma Qsum_bounds (qs : list Q) :
  Forall (fun q => 0 <= q <= 1)%Q qs ->
  (0 <= Qsum qs <= inject_Z (len qs))%Q.
Proof.
  induction 1 as [|q qs [Hq0 Hq1] _ [IH0 IH1]].
  - simpl. split; apply Qle_refl.
  - unfold len in *. cbn [Qsum fold_right length].
    rewrite Nat2Z.inj_succ, <- Z.add_1_l, inject_Z_plus.
    fold (Qsum qs). change (inject_Z 1) with 1%Q. split; lra.
Qed.

Lemma arithmetic_mean_range (scores : list score) (qs : list Q) :
  scores = map Fin qs -> qs <> [] ->
  Forall (fun q => 0 <= q <= 1)%Q qs ->
  exists q, arithmetic_mean scores = Fin q /\ (0 <= q <= 1)%Q.
Proof.
  intros -> Hne Hall. unfold arithmetic_mean. rewrite finite_scores_Fin.
  eexists. split; [reflexivity|]. rewrite Qred_correct.
  destruct (Qsum_bounds qs Hall) as [H0 H1].
  assert (Hn : (0 < inject_Z (len qs))%Q).
  { change (inject_Z 0 < inject_Z (len qs))%Q. rewrite <- Zlt_Qlt.
    destruct qs; [congruence | unfold len; simpl; lia]. }
  split.
  - apply Qle_shift_div_l; [exact Hn | now rewrite Qmult_0_l].
  - apply Qle_shift_div_r; [exact Hn | now rewrite Qmult_1_l].
Qed.

(** The aggregator with a scoring function that returns a score in
    [[0, 1]] on every pair of rows returns a score in [[0, 1]]. *)
Lemma pairwise_evaluation_unit_range
    (fn : list Z -> list Z -> result score) (annotations : list (list Z))
    (max_val : Z) :
  (2 <= length annotations)%nat ->
  Forall (Forall (fun v => 0 <= v)) annotations ->
  In max_val (concat annotations) ->
  Forall (fun v => v <= max_val) (concat annotations) ->
  (forall i j, (i < j < length annotations)%nat ->
     exists q, fn (indicator (max_val + 1) (nth i annotations []))
                  (indicator (max_val + 1) (nth j annotations [])) = Ok (Fin q)
               /\ (0 <= q <= 1)%Q) ->
  exists q, pairwise_evaluation fn annotations = Ok (Fin q) /\ (0 <= q <= 1)%Q.
Proof.
  intros HN Hpos Hin Hmax Hfn.
  rewrite (pairwise_evaluation_pairs fn _ _ Hpos Hin Hmax).
  set (enc := indicator (max_val + 1)) in *.
  set (val := fun ij : nat * nat =>
                match fn (enc (nth (fst ij) annotations []))
                         (enc (nth (snd ij) annotations [])) with
                | Ok (Fin q) => q
                | _ => 0%Q
                end).
  set (pairs := index_pairs (length annotations)).
  rewrite (mapM_ok _ (fun ij => Fin (val ij))).
  - simpl. assert (Hne : pairs <> []) by now apply index_pairs_nonempty.
    rewrite py_mean_arithmetic
      by (intros H; apply Hne; now apply map_eq_nil in H).
    destruct (arithmetic_mean_range (map (fun ij => Fin (val ij)) pairs)
                (map val pairs)) as (q & Hq & Hr).
    + now rewrite map_map.
    + intros H; apply Hne; now apply map_eq_nil in H.
    + apply Forall_forall. intros q Hq. apply in_map_iff in Hq as ([i j] & <- & Hij).
      apply index_pairs_In in Hij. destruct (Hfn i j Hij) as (q & Hq & Hr).
      unfold val. simpl. now rewrite Hq.
    + exists q. now rewrite Hq.
  - intros [i j] Hij. apply index_pairs_In in Hij.
    destruct (Hfn i j Hij) as (q & Hq & _). unfold val. simpl. now rewrite Hq.
Qed.

(** ** Pairwise WindowDiff *)

Lemma windowdiff_unweighted_range (seg1 seg2 : list Z) (k boundary : Z) :
  len seg1 = len seg2 -> k <= len seg1 ->
  exists q, windowdiff seg1 seg2 k boundary false = Ok (Fin q)
            /\ (0 <= q <= 1)%Q.
Proof.
  intros Hlen Hk. unfold windowdiff. rewrite Hlen, Z.eqb_refl. simpl.
  destruct (Z.ltb_spec (len seg2) k); [lia|].
  set (n := len seg2 - k + 1). assert (Hn : 0 < n) by (unfold n; lia).
  set (f := fun i => Z.min 1 (Z.abs (count boundary (slice seg1 i (i + k))
                                     - count boundary (slice seg2 i (i + k))))).
  rewrite (fold_left_sum _ f) by reflexivity.
  rewrite sumZ_range. unfold float_div.
  destruct (Z.eqb_spec n 0); [lia|]. eexists. split; [reflexivity|].
  rewrite Qred_correct. apply ratio_bounds; [|exact Hn].
  pose proof (sum_upto_bounds f 0 1 (Z.to_nat n)) as Hb.
  rewrite Z.mul_0_l, Z.mul_1_l, Z2Nat.id in Hb by lia.
  rewrite Z.add_0_l. apply Hb. intros i _. unfold f. lia.
Qed.

Lemma indicator_len (n : Z) (a : list Z) : 0 <= n -> len (indicator n a) = n.
Proof.
  intros Hn. unfold indicator, len. rewrite length_map, range_length. lia.
Qed.

Lemma max_val_nonneg (annotations : list (list Z)) (max_val : Z) :
  Forall (Forall (fun v => 0 <= v)) annotations ->
  In max_val (concat annotations) -> 0 <= max_val.
Proof.
  intros Hpos Hin. apply in_concat in Hin as (a & Ha & Hv).
  rewrite Forall_forall in Hpos. specialize (Hpos a Ha).
  rewrite Forall_forall in Hpos. now apply Hpos.
Qed.

(** X12: pairwise WindowDiff (unweighted, boundary 1) over [N >= 2]
    sequences of non-negative markers with largest marker [max_val]: the
    rows all have length [max_val + 1], so the length-mismatch error never
    occurs; the width error is raised exactly when [k > max_val + 1] (with
    the default [k = 3], whenever the largest marker is below 2), and
    otherwise the result is a score in [[0, 1]]. *)
Theorem pairwise_windowdiff_outcome (annotations : list (list Z))
    (max_val k : Z) :
  (2 <= length annotations)%nat ->
  Forall (Forall (fun v => 0 <= v)) annotations ->
  In max_val (concat annotations) ->
  Forall (fun v => v <= max_val) (concat annotations) ->
  (max_val + 1 < k ->
   pairwise_windowdiff annotations k
   = Raise (ValueError
       "Window width k should be smaller or equal than segmentation lengths"))
  /\ (k <= max_val + 1 ->
      exists q, pairwise_windowdiff annotations k = Ok (Fin q)
                /\ (0 <= q <= 1)%Q).
Proof.
  intros HN Hpos Hin Hmax.
  pose proof (max_val_nonneg _ _ Hpos Hin) as H0. split; intros Hk.
  - unfold pairwise_windowdiff.
    rewrite (pairwise_evaluation_pairs _ _ _ Hpos Hin Hmax).
    rewrite (mapM_all_raise _ _
      (ValueError
         "Window width k should be smaller or equal than segmentation lengths")).
    + reflexivity.
    + now apply index_pairs_nonempty.
    + intros [i j] _. simpl. unfold windowdiff.
      rewrite !indicator_len by lia. rewrite Z.eqb_refl. simpl.
      destruct (Z.ltb_spec (max_val + 1) k); [reflexivity | lia].
  - apply (pairwise_evaluation_unit_range _ _ max_val HN Hpos Hin Hmax).
    intros i j _. apply windowdiff_unweighted_range;
      rewrite !indicator_len by lia; [reflexivity | exact Hk].
Qed.

Lemma pairwise_windowdiff_outcome_witness :
  pairwise_windowdiff [[0; 1]; [1]] 3
  = Raise (ValueError
      "Window width k should be smaller or equal than segmentation lengths")
  /\ exists q, pairwise_windowdiff [[0; 1]; [1]] 2 = Ok (Fin q)
               /\ (0 <= q <= 1)%Q.
Proof.
  assert (HN : (2 <= length [[0; 1]; [1]]%Z)%nat) by (simpl; lia).
  assert (Hpos : Forall (Forall (fun v => 0 <= v)) [[0; 1]; [1]])
    by (repeat constructor; lia).
  assert (Hin : In 1 (concat [[0; 1]; [1]])) by (simpl; tauto).
  assert (Hmax : Forall (fun v => v <= 1) (concat [[0; 1]; [1]]))
    by (simpl; repeat constructor; lia).
  split.
  - apply (proj1 (pairwise_windowdiff_outcome _ 1 3 HN Hpos Hin Hmax)). lia.
  - apply (proj2 (pairwise_windowdiff_outcome _ 1 2 HN Hpos Hin Hmax)). lia.
Defined.

(** ** Pairwise Pk *)

Lemma indicator_has_one (n : Z) (a : list Z) (v : Z) :
  In v a -> 0 <= v < n -> count 1 (indicator n a) <> 0.
Proof.
  intros Hv Hn.
  assert (Hnth : nth (Z.to_nat v) (indicator n a) 0 = 1)
    by (rewrite indicator_nth by exact Hn;
        now rewrite (proj2 (existsb_eqb_In v a) Hv)).
  assert (Hin : In 1 (indicator n a)).
  { rewrite <- Hnth. apply nth_In.
    unfold indicator. rewrite length_map, range_length. lia. }
  pose proof (count_pos 1 _ Hin). lia.
Qed.

Lemma indicator_empty (n : Z) : count 1 (indicator n []) = 0.
Proof.
  unfold indicator, count, range. simpl.
  induction (seq 0 (Z.to_nat n)) as [|x l IH]; [reflexivity|].
  simpl. destruct (Z.eq_dec 0 1); [discriminate | exact IH].
Qed.

Lemma pk_raises_zero_division (ref hyp : list Z) (k : option Z) (boundary : Z)
    (e : exn) :
  pk ref hyp k boundary = Raise e -> e = ZeroDivisionError.
Proof.
  unfold pk, default_k, float_div. destruct k as [k|]; simpl.
  - destruct (len ref - k + 1 =? 0); [congruence | discriminate].
  - destruct (count boundary ref * 2 =? 0); simpl; [congruence|].
    match goal with |- context [if ?c then _ else _] => destruct c end;
      [congruence | discriminate].
Qed.

Lemma annotation_in_range (annotations : list (list Z)) (max_val : Z)
    (i : nat) (v : Z) :
  Forall (Forall (fun v => 0 <= v)) annotations ->
  Forall (fun v => v <= max_val) (concat annotations) ->
  (i < length annotations)%nat -> In v (nth i annotations []) ->
  0 <= v < max_val + 1.
Proof.
  intros Hpos Hmax Hi Hv.
  assert (Ha : In (nth i annotations []) annotations) by now apply nth_In.
  rewrite Forall_forall in Hpos. specialize (Hpos _ Ha).
  rewrite Forall_forall in Hpos. specialize (Hpos v Hv).
  rewrite Forall_forall in Hmax.
  assert (v <= max_val)
    by (apply Hmax, in_concat; exists (nth i annotations []); now split).
  lia.
Qed.

Lemma pk_default_score (ref hyp : list Z) (boundary : Z) :
  count boundary ref <> 0 ->
  exists q, pk ref hyp None boundary = Ok (Fin q) /\ (0 <= q <= 1)%Q.
Proof.
  intros Hc. pose proof (count_le_len boundary ref) as Hb.
  rewrite pk_default_unfold.
  destruct (Z.eqb_spec (count boundary ref) 0); [contradiction|].
  rewrite py_round_default by (try apply len_nonneg; lia).
  pose proof (default_window_bounds (len ref) (count boundary ref)
                ltac:(lia)) as Hk.
  set (k := (len ref + count boundary ref) / (2 * count boundary ref)) in *.
  rewrite pk_value by lia. eexists. split; [reflexivity|].
  rewrite Qred_correct. apply ratio_bounds; [|lia].
  pose proof (disagree_count_bounds ref hyp k boundary
                (Z.to_nat (len ref - k + 1))). lia.
Qed.

(** X13: pairwise Pk over [N >= 2] sequences of non-negative markers
    returns a score in [[0, 1]] as soon as every annotator but the last
    marked something: the rows that serve as reference then hold a
    boundary.  The last annotator may have marked nothing. *)
Theorem pairwise_pk_total (annotations : list (list Z)) (max_val : Z) :
  (2 <= length annotations)%nat ->
  Forall (Forall (fun v => 0 <= v)) annotations ->
  In max_val (concat annotations) ->
  Forall (fun v => v <= max_val) (concat annotations) ->
  (forall i, (i < length annotations - 1)%nat -> nth i annotations [] <> []) ->
  exists q, pairwise_pk annotations = Ok (Fin q) /\ (0 <= q <= 1)%Q.
Proof.
  intros HN Hpos Hin Hmax Hne.
  apply (pairwise_evaluation_unit_range _ _ max_val HN Hpos Hin Hmax).
  intros i j Hij.
  destruct (nth i annotations []) as [|v a] eqn:Ha;
    [exfalso; apply (Hne i); [lia | exact Ha]|].
  assert (Hv : 0 <= v < max_val + 1).
  { apply (annotation_in_range annotations max_val i v Hpos Hmax); [lia|].
    rewrite Ha. now left. }
  apply pk_default_score.
  apply (indicator_has_one _ _ v); [now left | exact Hv].
Qed.

Lemma pairwise_pk_total_witness :
  exists q, pairwise_pk [[1; 3]; [0; 3]; []] = Ok (Fin q) /\ (0 <= q <= 1)%Q.
Proof.
  apply (pairwise_pk_total [[1; 3]; [0; 3]; []] 3).
  - simpl; lia.
  - repeat constructor; lia.
  - simpl; tauto.
  - simpl; repeat constructor; lia.
  - intros i Hi. simpl in Hi.
    destruct i as [|[|i]]; [discriminate | discriminate | lia].
Defined.

(** X14: pairwise Pk over [N >= 2] sequences of non-negative markers raises
    [ZeroDivisionError] as soon as an annotator other than the last marked
    nothing: that annotator's row is the reference of some pair, and the
    default window size divides by its boundary count. *)
Theorem pairwise_pk_empty_annotator (annotations : list (list Z))
    (max_val : Z) (i : nat) :
  Forall (Forall (fun v => 0 <= v)) annotations ->
  In max_val (concat annotations) ->
  Forall (fun v => v <= max_val) (concat annotations) ->
  (i < length annotations - 1)%nat -> nth i annotations [] = [] ->
  pairwise_pk annotations = Raise ZeroDivisionError.
Proof.
  intros Hpos Hin Hmax Hi Hnil. unfold pairwise_pk.
  rewrite (pairwise_evaluation_pairs _ _ _ Hpos Hin Hmax).
  destruct (mapM _ (index_pairs (length annotations))) as [scores|e] eqn:Hm.
  - apply mapM_ok_inv with (x := (i, S i)) in Hm; [|apply index_pairs_In; lia].
    destruct Hm as (y & Hy). simpl in Hy. rewrite Hnil in Hy.
    rewrite pk_default_unfold, indicator_empty in Hy. discriminate.
  - destruct (mapM_raise_inv _ _ _ Hm) as (ij & _ & Hf).
    apply pk_raises_zero_division in Hf. now subst.
Qed.

Lemma pairwise_pk_empty_annotator_witness :
  pairwise_pk [[]; [1; 3]; [0; 3]] = Raise ZeroDivisionError.
Proof.
  apply (pairwise_pk_empty_annotator [[]; [1; 3]; [0; 3]] 3 0).
  - repeat constructor; lia.
  - simpl; tauto.
  - simpl; repeat constructor; lia.
  - simpl; lia.
  - reflexivity.
Defined.

(** ** Identical annotators *)

Lemma py_mean_zeros {A : Type} (l : list A) :
  l <> [] -> py_mean (map (fun _ => Fin 0) l) = Ok (Fin 0).
Proof.
  intros Hne. rewrite py_mean_arithmetic
    by (intros H; apply Hne; now apply map_eq_nil in H).
  unfold arithmetic_mean.
  replace (map (fun _ : A => Fin 0) l) with (map Fin (map (fun _ => 0%Q) l))
    by (now rewrite map_map).
  rewrite finite_scores_Fin. do 2 f_equal.
  apply (Qred_complete _ 0).
  assert (Hs : (Qsum (map (fun _ : A => 0%Q) l) == 0)%Q).
  { clear Hne. induction l as [|x l IH]; [reflexivity|].
    simpl. fold (Qsum (map (fun _ : A => 0%Q) l)). rewrite IH. reflexivity. }
  rewrite Hs. unfold Qdiv. apply Qmult_0_l.
Qed.

Lemma concat_repeat_In (a : list Z) (n : nat) (v : Z) :
  (0 < n)%nat -> (In v (concat (repeat a n)) <-> In v a).
Proof.
  intros Hn. rewrite in_concat. split.
  - intros (x & Hx & Hv). apply repeat_spec in Hx. now subst.
  - intros Hv. exists a. split; [|exact Hv].
    destruct n; [lia | now left].
Qed.

(** X15: when [N >= 2] annotators gave the same non-empty sequence of
    non-negative markers, with largest marker [max_val], pairwise Pk is 0
    and pairwise WindowDiff is 0 for every width [k <= max_val + 1]. *)
Theorem identical_annotators_score_zero (a : list Z) (n : nat)
    (max_val k : Z) :
  (2 <= n)%nat -> Forall (fun v => 0 <= v) a ->
  In max_val a -> Forall (fun v => v <= max_val) a ->
  pairwise_pk (repeat a n) = Ok (Fin 0)
  /\ (k <= max_val + 1 -> pairwise_windowdiff (repeat a n) k = Ok (Fin 0)).
Proof.
  intros Hn Hpos Hin Hmax.
  assert (Hpos' : Forall (Forall (fun v => 0 <= v)) (repeat a n))
    by (apply Forall_forall; intros x Hx; apply repeat_spec in Hx; now subst).
  assert (Hin' : In max_val (concat (repeat a n)))
    by (apply concat_repeat_In; [lia | exact Hin]).
  assert (Hmax' : Forall (fun v => v <= max_val) (concat (repeat a n))).
  { apply Forall_forall. intros v Hv. apply concat_repeat_In in Hv; [|lia].
    rewrite Forall_forall in Hmax. now apply Hmax. }
  assert (H0 : 0 <= max_val) by (rewrite Forall_forall in Hpos; now apply Hpos).
  assert (Hrow : forall i j, In (i, j) (index_pairs (length (repeat a n))) ->
            nth i (repeat a n) [] = a /\ nth j (repeat a n) [] = a).
  { intros i j Hij. apply index_pairs_In in Hij. rewrite repeat_length in Hij.
    split; apply nth_repeat_lt; lia. }
  assert (Hne : index_pairs (length (repeat a n)) <> [])
    by (apply index_pairs_nonempty; rewrite repeat_length; lia).
  split; [|intros Hk].
  - unfold pairwise_pk.
    rewrite (pairwise_evaluation_pairs _ _ _ Hpos' Hin' Hmax').
    rewrite (mapM_ok _ (fun _ => Fin 0)); [now apply py_mean_zeros|].
    intros [i j] Hij. cbn [fst snd]. destruct (Hrow i j Hij) as [-> ->].
    rewrite pk_default_unfold.
    set (row := indicator (max_val + 1) a).
    assert (Hc : count 1 row <> 0)
      by (apply (indicator_has_one _ _ max_val); [exact Hin | lia]).
    destruct (Z.eqb_spec (count 1 row) 0); [contradiction|].
    pose proof (count_le_len 1 row).
    rewrite py_round_default by (try apply len_nonneg; lia).
    apply pk_self.
    apply (default_window_bounds (len row) (count 1 row)). lia.
  - unfold pairwise_windowdiff.
    rewrite (pairwise_evaluation_pairs _ _ _ Hpos' Hin' Hmax').
    rewrite (mapM_ok _ (fun _ => Fin 0)); [now apply py_mean_zeros|].
    intros [i j] Hij. cbn [fst snd]. destruct (Hrow i j Hij) as [-> ->].
    apply windowdiff_self. rewrite indicator_len by lia. exact Hk.
Qed.

Lemma identical_annotators_score_zero_witness :
  pairwise_pk (repeat [1; 3] 3) = Ok (Fin 0)
  /\ pairwise_windowdiff (repeat [1; 3] 3) 3 = Ok (Fin 0).
Proof.
  assert (Hn : (2 <= 3)%nat) by lia.
  assert (Hpos : Forall (fun v => 0 <= v) [1; 3]) by (repeat constructor; lia).
  assert (Hin : In 3 [1; 3]) by (simpl; tauto).
  assert (Hmax : Forall (fun v => v <= 3) [1; 3]) by (repeat constructor; lia).
  pose proof (identical_annotators_score_zero [1; 3] 3 3 3 Hn Hpos Hin Hmax) as H.
  split; [exact (proj1 H) | apply (proj2 H); lia].
Defined.

(** ** Negative markers *)

(** X16: when every marker is negative the aggregator always fails, before
    any scoring: the array has no column to index when the largest marker
    is -1 ([IndexError]), and cannot be allocated when it is below -1
    ([ValueError]). *)
Theorem pairwise_evaluation_negative_markers
    (fn : list Z -> list Z -> result score) (annotations : list (list Z))
    (max_val : Z) :
  In max_val (concat annotations) ->
  Forall (fun v => v <= max_val) (concat annotations) ->
  max_val < 0 ->
  pairwise_evaluation fn annotations
  = if max_val =? -1 then Raise IndexError
    else Raise (ValueError "negative dimensions are not allowed").
Proof.
  intros Hin Hmax Hneg. unfold pairwise_evaluation.
  rewrite (bin_annotations_closed _ max_val (py_max_greatest _ _ Hin Hmax)).
  destruct (Z.eqb_spec max_val (-1)) as [->|Hne].
  - simpl. destruct (forallb (forallb (in_axis 0)) annotations) eqn:Hall;
      [|reflexivity].
    exfalso. apply in_concat in Hin as (a & Ha & Hv).
    rewrite forallb_forall in Hall. specialize (Hall a Ha).
    rewrite forallb_forall in Hall. specialize (Hall _ Hv). discriminate.
  - destruct (Z.ltb_spec (max_val + 1) 0); [reflexivity | lia].
Qed.

Lemma pairwise_evaluation_negative_markers_witness :
  pairwise_kappa [[-2; -3]; [-2]]
  = Raise (ValueError "negative dimensions are not allowed").
Proof.
  apply (pairwise_evaluation_negative_markers kappa [[-2; -3]; [-2]] (-2)).
  - simpl; tauto.
  - simpl; repeat constructor; lia.
  - lia.
Defined.

Lemma wrap_in_axis (n v : Z) :
  in_axis n v = true -> 0 <= wrap n v < n.
Proof.
  unfold in_axis, wrap. destruct (Z.ltb_spec v (- n)); [discriminate|].
  destruct (Z.leb_spec n v); [discriminate|]. intros _.
  destruct (Z.ltb_spec v 0); lia.
Qed.

Lemma wrap_nonneg (n v : Z) : 0 <= v -> wrap n v = v.
Proof. intros Hv. unfold wrap. destruct (Z.ltb_spec v 0); lia. Qed.

Lemma in_axis_range (n v : Z) : 0 <= v < n -> in_axis n v = true.
Proof.
  intros Hv. unfold in_axis. destruct (Z.ltb_spec v (- n)); [lia|].
  destruct (Z.leb_spec n v); [lia | reflexivity].
Qed.

Lemma marked_wrap (n : Z) (a : list Z) :
  forallb (in_axis n) a = true -> marked n (map (wrap n) a) = marked n a.
Proof.
  intros Hall. unfold marked. apply map_ext. intros i.
  replace (existsb (fun v => wrap n v =? i) (map (wrap n) a))
    with (existsb (fun v => wrap n v =? i) a); [reflexivity|].
  induction a as [|v a IH]; [reflexivity|]. simpl in *.
  apply andb_prop in Hall as [Hv Ha]. rewrite (IH Ha).
  now rewrite (wrap_nonneg n (wrap n v)) by (apply wrap_in_axis, Hv).
Qed.

(** X17: with a largest marker [max_val >= 0], a negative marker [v] not
    below [-(max_val + 1)] designates the position [v + max_val + 1]:
    replacing every marker by the position it designates changes nothing
    to the result of the aggregator, whatever the scoring function; a
    marker below [-(max_val + 1)] makes the aggregator raise [IndexError]. *)
Theorem negative_markers_wrap
    (fn : list Z -> list Z -> result score) (annotations : list (list Z))
    (max_val : Z) :
  In max_val (concat annotations) ->
  Forall (fun v => v <= max_val) (concat annotations) ->
  0 <= max_val ->
  (Forall (Forall (fun v => - (max_val + 1) <= v)) annotations ->
   pairwise_evaluation fn (map (map (wrap (max_val + 1))) annotations)
   = pairwise_evaluation fn annotations)
  /\ (Exists (Exists (fun v => v < - (max_val + 1))) annotations ->
      pairwise_evaluation fn annotations = Raise IndexError).
Proof.
  intros Hin Hmax H0. set (n := max_val + 1).
  pose proof (bin_annotations_closed _ max_val (py_max_greatest _ _ Hin Hmax))
    as Hbin. fold n in Hbin.
  destruct (Z.ltb_spec n 0); [unfold n in *; lia|].
  assert (Hle : forall a v, In a annotations -> In v a -> v < n).
  { intros a v Ha Hv. rewrite Forall_forall in Hmax.
    assert (v <= max_val) by (apply Hmax, in_concat; exists a; now split).
    unfold n. lia. }
  split.
  - intros Hlow.
    assert (Hall : forall a, In a annotations -> forallb (in_axis n) a = true).
    { intros a Ha. apply forallb_forall. intros v Hv.
      rewrite Forall_forall in Hlow. specialize (Hlow a Ha).
      rewrite Forall_forall in Hlow. specialize (Hlow v Hv).
      specialize (Hle a v Ha Hv).
      unfold in_axis. destruct (Z.ltb_spec v (- n)); [unfold n in *; lia|].
      destruct (Z.leb_spec n v); [lia | reflexivity]. }
    assert (Hall' : forallb (forallb (in_axis n)) annotations = true)
      by (apply forallb_forall; exact Hall).
    unfold pairwise_evaluation. rewrite Hbin, Hall'.
    assert (Hmax' : py_max (concat (map (map (wrap n)) annotations)) = Ok max_val).
    { rewrite <- concat_map. apply py_max_greatest.
      - apply in_map_iff. exists max_val. split; [now apply wrap_nonneg | exact Hin].
      - apply Forall_forall. intros w Hw.
        apply in_map_iff in Hw as (v & <- & Hv).
        apply in_concat in Hv as (a & Ha & Hv).
        pose proof (wrap_in_axis n v) as Hr.
        rewrite (proj1 (forallb_forall _ _) (Hall a Ha) v Hv) in Hr.
        specialize (Hr eq_refl). unfold n in *. lia. }
    rewrite (bin_annotations_closed _ max_val Hmax'). fold n.
    destruct (Z.ltb_spec n 0); [lia|].
    replace (forallb (forallb (in_axis n)) (map (map (wrap n)) annotations))
      with true.
    + rewrite map_map.
      replace (map (fun a => marked n (map (wrap n) a)) annotations)
        with (map (marked n) annotations); [reflexivity|].
      apply map_ext_in. intros a Ha. symmetry. apply marked_wrap, Hall, Ha.
    + symmetry. apply forallb_forall. intros a' Ha'.
      apply in_map_iff in Ha' as (a & <- & Ha).
      apply forallb_forall. intros w Hw. apply in_map_iff in Hw as (v & <- & Hv).
      apply in_axis_range, wrap_in_axis.
      exact (proj1 (forallb_forall _ _) (Hall a Ha) v Hv).
  - intros Hex. apply Exists_exists in Hex as (a & Ha & Hex).
    apply Exists_exists in Hex as (v & Hv & Hlt).
    unfold pairwise_evaluation. rewrite Hbin.
    destruct (forallb (forallb (in_axis n)) annotations) eqn:Hall; [|reflexivity].
    exfalso. rewrite forallb_forall in Hall. specialize (Hall a Ha).
    rewrite forallb_forall in Hall. specialize (Hall v Hv).
    unfold in_axis in Hall. destruct (Z.ltb_spec v (- n)); [discriminate|].
    unfold n in *. lia.
Qed.

Lemma negative_markers_wrap_witness :
  pairwise_kappa (map (map (wrap (3 + 1))) [[-1; 1]; [0; 3]])
  = pairwise_kappa [[-1; 1]; [0; 3]]
  /\ pairwise_kappa [[-5; 1]; [0; 3]] = Raise IndexError.
Proof.
  split.
  - apply (proj1 (negative_markers_wrap kappa [[-1; 1]; [0; 3]] 3
                    ltac:(simpl; tauto)
                    ltac:(simpl; repeat constructor; lia) ltac:(lia))).
    repeat constructor; lia.
  - apply (proj2 (negative_markers_wrap kappa [[-5; 1]; [0; 3]] 3
                    ltac:(simpl; tauto)
                    ltac:(simpl; repeat constructor; lia) ltac:(lia))).
    left. left. lia.
Defined.

(** ** Two annotators *)

(** X18: with two annotators and a scoring function that is symmetric in
    its arguments, the aggregator gives the same result in either order of
    the annotators, errors included. *)
Theorem pairwise_evaluation_two_annotators
    (fn : list Z -> list Z -> result score) (a b : list Z) :
  (forall x y, fn x y = fn y x) ->
  pairwise_evaluation fn [a; b] = pairwise_evaluation fn [b; a].
Proof.
  intros Hsym.
  assert (Hsame : forall v, In v (concat [a; b]) <-> In v (concat [b; a]))
    by (intros v; simpl; rewrite !app_nil_r, !in_app_iff; tauto).
  pose proof (py_max_same _ _ Hsame) as Hmax.
  unfold pairwise_evaluation.
  destruct (py_max (concat [a; b])) as [m|e] eqn:E.
  - rewrite (bin_annotations_closed [a; b] m E).
    rewrite (bin_annotations_closed [b; a] m (eq_sym Hmax)).
    destruct (m + 1 <? 0); [reflexivity|]. simpl.
    destruct (forallb (in_axis (m + 1)) a), (forallb (in_axis (m + 1)) b);
      simpl; try reflexivity.
    now rewrite Hsym.
  - unfold bin_annotations. now rewrite <- Hmax, E.
Qed.

Lemma pairwise_evaluation_two_annotators_witness :
  pairwise_windowdiff [[1; 3]; [0]] 2 = pairwise_windowdiff [[0]; [1; 3]] 2.
Proof.
  apply (pairwise_evaluation_two_annotators
           (fun x y => windowdiff x y 2 1 false) [1; 3] [0]).
  intros x y. apply windowdiff_sym.
Defined.

(** ** The rows and the default window of Pk *)

Lemma count_indicator_filter (g : Z -> bool) (l : list Z) :
  count_occ Z.eq_dec (map (fun i => if g i then 1 else 0) l) 1
  = length (filter g l).
Proof.
  induction l as [|x l IH]; [reflexivity|]. simpl.
  destruct (g x); simpl; now rewrite IH.
Qed.

Lemma range_NoDup (n : Z) : NoDup (range n).
Proof.
  unfold range. apply Finite.Injective_map_NoDup; [|apply seq_NoDup].
  intros x y Hxy. now apply Nat2Z.inj.
Qed.

Lemma indicator_count_distinct (n : Z) (a : list Z) :
  Forall (fun v => 0 <= v < n) a ->
  count 1 (indicator n a) = Z.of_nat (length (nodup Z.eq_dec a)).
Proof.
  intros Ha. unfold count, indicator. f_equal.
  rewrite (count_indicator_filter (fun i => existsb (Z.eqb i) a)).
  apply Permutation_length, NoDup_Permutation.
  - apply NoDup_filter, range_NoDup.
  - apply NoDup_nodup.
  - intros i. rewrite filter_In, nodup_In, range_In, existsb_eqb_In.
    rewrite Forall_forall in Ha. split; [tauto|].
    intros Hi. split; [now apply Ha | exact Hi].
Qed.

(** X19: the row of an annotator whose markers are positions of the row
    holds as many 1s as the annotator gave distinct markers, [d]; the
    default window size of Pk for that row as reference is therefore
    [(n + d) / (2 * d)] rounded down, [n] being the row length, and its
    computation divides by zero when the annotator marked nothing. *)
Theorem indicator_default_window (n : Z) (a : list Z) :
  Forall (fun v => 0 <= v < n) a ->
  let d := Z.of_nat (length (nodup Z.eq_dec a)) in
  count 1 (indicator n a) = d
  /\ default_k (indicator n a) 1
     = if d =? 0 then Raise ZeroDivisionError else Ok ((n + d) / (2 * d)).
Proof.
  intros Ha d. pose proof (indicator_count_distinct n a Ha) as Hc.
  fold d in Hc. split; [exact Hc|].
  unfold default_k. rewrite Hc, (Z.mul_comm d 2).
  destruct (Z.eqb_spec d 0) as [->|Hd]; [reflexivity|].
  destruct (Z.eqb_spec (2 * d) 0); [lia|].
  assert (Hn : 0 <= n).
  { destruct a as [|v a']; [unfold d in Hd; simpl in Hd; lia|].
    apply Forall_cons_iff in Ha as [Hv _]. lia. }
  rewrite indicator_len by exact Hn.
  rewrite py_round_default by (unfold d; lia). reflexivity.
Qed.

Lemma indicator_default_window_witness :
  count 1 (indicator 8 [1; 5; 1]) = 2
  /\ default_k (indicator 8 [1; 5; 1]) 1 = Ok 2.
Proof.
  apply (indicator_default_window 8 [1; 5; 1]). repeat constructor; lia.
Defined.

(** ** Windows of width 1 *)

(** X20: at window width 1, on sequences of equal non-zero length, Pk and
    WindowDiff (weighted or not) are the same score: the share of positions
    where exactly one of the two sequences holds the boundary symbol. *)
Theorem pk_windowdiff_unit_width (a b : list Z) (boundary : Z) (weighted : bool) :
  len a = len b -> 1 <= len a ->
  pk a b (Some 1) boundary = windowdiff a b 1 boundary weighted.
Proof.
  intros Hlen Hl. rewrite pk_value, windowdiff_value by lia.
  rewrite (sum_upto_ext
             (fun i => if disagree a b 1 boundary i then 1 else 0)
             (fun i => if weighted then count_diff a b 1 boundary i
                       else Z.min 1 (count_diff a b 1 boundary i)));
    [reflexivity|].
  intros i _. unfold disagree, count_diff. rewrite <- !has_boundary_count.
  pose proof (count_window_bounds boundary a i 1 ltac:(lia)).
  pose proof (count_window_bounds boundary b i 1 ltac:(lia)).
  destruct (Z.ltb_spec 0 (count boundary (window a i 1))),
           (Z.ltb_spec 0 (count boundary (window b i 1)));
    destruct weighted; simpl; lia.
Qed.

Lemma pk_windowdiff_unit_width_witness :
  pk [1; 0; 0; 1] [0; 0; 1; 1] (Some 1) 1
  = windowdiff [1; 0; 0; 1] [0; 0; 1; 1] 1 1 true.
Proof.
  apply (pk_windowdiff_unit_width [1; 0; 0; 1] [0; 0; 1; 1] 1 true).
  - reflexivity.
  - unfold len; simpl; lia.
Defined.

(** ** Two annotators: the score of the single pair *)

Lemma Qred_idem (q : Q) : Qred (Qred q) = Qred q.
Proof. apply Qred_complete, Qred_correct. Qed.

Lemma float_div_reduced (a b : Z) (q : Q) :
  float_div a b = Ok (Fin q) -> Qred q = q.
Proof.
  unfold float_div. destruct (b =? 0); [discriminate|].
  intros H. assert (Hq : q = Qred (inject_Z a / inject_Z b)) by congruence.
  rewrite Hq. apply Qred_idem.
Qed.

Lemma py_mean_single (s : score) :
  match s with Fin q => Qred q = q | NonFinite => True end ->
  py_mean [s] = Ok s.
Proof.
  intros Hq. rewrite py_mean_arithmetic by discriminate. f_equal.
  destruct s as [q|]; [|reflexivity].
  unfold arithmetic_mean. cbn [finite_scores option_map]. f_equal.
  transitivity (Qred q); [|exact Hq]. apply Qred_complete.
  unfold Qsum. cbn [fold_right]. change (inject_Z (len [q])) with 1%Q.
  field.
Qed.

(** X21: with exactly two annotators (non-negative markers, largest marker
    [max_val]) the aggregate is the outcome of the single pair: pairwise Pk
    is [pk] of the first row against the second with the default window,
    pairwise WindowDiff is [windowdiff] of the two rows, error or score. *)
Theorem two_annotators_single_pair (a b : list Z) (max_val k : Z) :
  Forall (Forall (fun v => 0 <= v)) [a; b] ->
  In max_val (concat [a; b]) ->
  Forall (fun v => v <= max_val) (concat [a; b]) ->
  pairwise_pk [a; b]
  = pk (indicator (max_val + 1) a) (indicator (max_val + 1) b) None 1
  /\ pairwise_windowdiff [a; b] k
     = windowdiff (indicator (max_val + 1) a) (indicator (max_val + 1) b)
                  k 1 false.
Proof.
  intros Hpos Hin Hmax.
  assert (Hrun : forall fn,
            (forall x y q, fn x y = Ok (Fin q) -> Qred q = q) ->
            pairwise_evaluation fn [a; b]
            = fn (indicator (max_val + 1) a) (indicator (max_val + 1) b)).
  { intros fn Hred.
    rewrite (pairwise_evaluation_pairs fn _ _ Hpos Hin Hmax). simpl.
    destruct (fn (indicator (max_val + 1) a) (indicator (max_val + 1) b))
      as [s|e] eqn:Hs; [|reflexivity].
    simpl. apply py_mean_single. destruct s as [q|]; [|exact I].
    exact (Hred _ _ _ Hs). }
  split; apply Hrun.
  - intros x y q. unfold pk.
    destruct (default_k x 1) as [w|e]; simpl; [|discriminate].
    apply float_div_reduced.
  - intros x y q. unfold windowdiff.
    destruct (negb (len x =? len y)); [discriminate|].
    destruct (len x <? k); [discriminate|]. apply float_div_reduced.
Qed.

Lemma two_annotators_single_pair_witness :
  pairwise_pk [[1; 3]; [0; 3]]
  = pk (indicator (3 + 1) [1; 3]) (indicator (3 + 1) [0; 3]) None 1
  /\ pairwise_windowdiff [[1; 3]; [0; 3]] 5
     = windowdiff (indicator (3 + 1) [1; 3]) (indicator (3 + 1) [0; 3]) 5 1 false.
Proof.
  apply (two_annotators_single_pair [1; 3] [0; 3] 3 5).
  - repeat constructor; lia.
  - simpl; tauto.
  - simpl; repeat constructor; lia.
Defined.
